(** * A shallow embedding of the inventory model layer

    The development follows the Go package `model`: the table mapper
    ([Table], [Field]) that derives columns from a record by reflection,
    stages values between the record and the driver, synthesises primary
    keys and renders SQL from templates, and the [Client] that serialises
    writers and mediates transactions.

    Conventions.
    - Go strings are byte strings: Rocq [string].
    - [int64] is [Z] with its wrap-around written out ([wrap]).
    - A record is a tree of cells ([GoValue]); a [Field] holds a reference
      (a path) into that tree, so that [Push] through a field is seen by
      whoever reads the record afterwards.
    - A [[]*Field] is a list of descriptors; a loop that mutates the
      elements of a sub-slice ([KeyFields], [RealFields], ...) is a map over
      the whole list guarded by the predicate that built the sub-slice.
    - The JSON codec and the SQL driver are parameters; the other library
      functions the package calls are written out. *)

From Stdlib Require Import ZArith List Bool Ascii String Lia Permutation.
Import ListNotations.
Open Scope string_scope.
Open Scope Z_scope.

Set Implicit Arguments.

(** ** Outcomes of a call *)

(** A Go call either returns or panics. *)
Inductive Outcome (A : Type) : Type :=
| Returns (a : A)
| Panics (msg : string).
Arguments Returns {A} a.
Arguments Panics {A} msg.

(** ** Byte strings: the pieces of package [strings] the code uses *)
Module strings.

Definition chars (s : string) : list ascii := list_ascii_of_string s.
Definition text (l : list ascii) : string := string_of_list_ascii l.

(** [strings.Split(s, ",")]: never empty, [""] gives one empty piece. *)
Fixpoint Split (s : string) : list string :=
  match s with
  | EmptyString => [EmptyString]
  | String c r =>
      if Ascii.eqb c ","%char then EmptyString :: Split r
      else match Split r with
           | h :: t => String c h :: t
           | [] => [String c EmptyString]
           end
  end.

(** [strings.Join(list, sep)]. *)
Fixpoint Join (l : list string) (sep : string) : string :=
  match l with
  | [] => ""
  | [a] => a
  | a :: r => a ++ sep ++ Join r sep
  end.

Definition bytes (l : list nat) : string :=
  text (map ascii_of_nat l).

(** The UTF-8 encodings of the runes [unicode.IsSpace] accepts. *)
Definition spaces : list string :=
  map bytes
    [ [9]; [10]; [11]; [12]; [13]; [32];
      [194; 133]; [194; 160]; [225; 154; 128];
      [226; 128; 128]; [226; 128; 129]; [226; 128; 130]; [226; 128; 131];
      [226; 128; 132]; [226; 128; 133]; [226; 128; 134]; [226; 128; 135];
      [226; 128; 136]; [226; 128; 137]; [226; 128; 138];
      [226; 128; 168]; [226; 128; 169]; [226; 128; 175];
      [226; 129; 159]; [227; 128; 128] ]%nat.

Fixpoint strip (p s : list ascii) : option (list ascii) :=
  match p, s with
  | [], _ => Some s
  | a :: p', b :: s' => if Ascii.eqb a b then strip p' s' else None
  | _ :: _, [] => None
  end.

Fixpoint strip_any (ps : list (list ascii)) (s : list ascii)
  : option (list ascii) :=
  match ps with
  | [] => None
  | p :: r => match strip p s with
              | Some s' => Some s'
              | None => strip_any r s
              end
  end.

Fixpoint trim_left (fuel : nat) (ps : list (list ascii)) (s : list ascii)
  : list ascii :=
  match fuel with
  | O => s
  | S k => match strip_any ps s with
           | Some s' => trim_left k ps s'
           | None => s
           end
  end.

(** [strings.TrimSpace]. *)
Definition TrimSpace (s : string) : string :=
  let fwd := map chars spaces in
  let bwd := map (@rev ascii) fwd in
  let l := chars s in
  let l1 := trim_left (List.length l) fwd l in
  let l2 := trim_left (List.length l1) bwd (rev l1) in
  text (rev l2).

End strings.

(** ** Package [regexp], for the two expressions of the package

    An expression is a sequence of literals and of [.+], each one a capture
    group or not.  Matching is leftmost, and each [.+] takes the longest
    run (without a newline) that lets the rest match. *)
Module regexp.

Inductive Atom : Type :=
| Lit (s : string)
| AnyPlus.

Inductive Item : Type :=
| Group (a : Atom)
| Plain (a : Atom).

Definition atom (i : Item) : Atom :=
  match i with Group a => a | Plain a => a end.

Definition capture (i : Item) (m : list ascii)
           (gs : list (list ascii)) : list (list ascii) :=
  match i with Group _ => m :: gs | Plain _ => gs end.

Definition Match : Type := (list ascii * list (list ascii))%type.

Fixpoint any_plus (k : list ascii -> option Match) (s : list ascii)
  : option (list ascii * Match) :=
  match s with
  | [] => None
  | c :: s' =>
      if Ascii.eqb c (ascii_of_nat 10) then None
      else match any_plus k s' with
           | Some (t, r) => Some (c :: t, r)
           | None => match k s' with
                     | Some r => Some ([c], r)
                     | None => None
                     end
           end
  end.

Fixpoint match_here (items : list Item) : list ascii -> option Match :=
  match items with
  | [] => fun _ => Some ([], [])
  | i :: rest =>
      match atom i with
      | Lit l => fun s =>
          match strings.strip (strings.chars l) s with
          | Some s' =>
              match match_here rest s' with
              | Some (w, gs) =>
                  Some ((strings.chars l ++ w)%list,
                        capture i (strings.chars l) gs)
              | None => None
              end
          | None => None
          end
      | AnyPlus => fun s =>
          match any_plus (match_here rest) s with
          | Some (t, (w, gs)) => Some ((t ++ w)%list, capture i t gs)
          | None => None
          end
      end
  end.

Fixpoint find (items : list Item) (s : list ascii) : option Match :=
  match match_here items s with
  | Some m => Some m
  | None => match s with
            | [] => None
            | _ :: s' => find items s'
            end
  end.

(** [re.FindStringSubmatch(s)]: the whole match, then the groups. *)
Definition FindStringSubmatch (items : list Item) (s : string)
  : option (list string) :=
  match find items (strings.chars s) with
  | Some (w, gs) => Some (map strings.text (w :: gs))
  | None => None
  end.

End regexp.

(** [UniqueRegex = (unique)(\()(.+)(\))] *)
Definition UniqueRegex : list regexp.Item :=
  [ regexp.Group (regexp.Lit "unique"); regexp.Group (regexp.Lit "(");
    regexp.Group regexp.AnyPlus; regexp.Group (regexp.Lit ")") ].

(** [FkRegex = (fk):(.+)(\()(.+)(\))] *)
Definition FkRegex : list regexp.Item :=
  [ regexp.Group (regexp.Lit "fk"); regexp.Plain (regexp.Lit ":");
    regexp.Group regexp.AnyPlus; regexp.Group (regexp.Lit "(");
    regexp.Group regexp.AnyPlus; regexp.Group (regexp.Lit ")") ].


(** ** Bytes and fixed-width integers *)

(** [[]byte(s)]. *)
Definition bytes_of_string (s : string) : list Z :=
  map (fun c => Z.of_nat (nat_of_ascii c)) (strings.chars s).

(** The value a signed [bits]-wide cell holds after storing [z]. *)
Definition wrap (bits : Z) (z : Z) : Z :=
  (z + 2 ^ (bits - 1)) mod 2 ^ bits - 2 ^ (bits - 1).

Module binary.

Fixpoint be (n : nat) (u : Z) : list Z :=
  match n with
  | O => []
  | S k => (Z.shiftr u (8 * Z.of_nat k)) mod 256 :: be k u
  end.

(** [binary.Write(bfr, binary.BigEndian, x)] for [x int64]: the eight
    bytes of the two's complement of [x], most significant first. *)
Definition BigEndian_int64 (x : Z) : list Z := be 8 (x mod 2 ^ 64).

End binary.

Module hex.

Definition digit (d : Z) : ascii :=
  if d <? 10 then ascii_of_nat (Z.to_nat (48 + d))
  else ascii_of_nat (Z.to_nat (87 + d)).

(** [hex.EncodeToString]: two lowercase digits a byte. *)
Fixpoint EncodeToString (l : list Z) : string :=
  match l with
  | [] => ""
  | b :: r => String (digit (b / 16)) (String (digit (b mod 16)) (EncodeToString r))
  end.

End hex.

(** ** Package [crypto/sha1] (FIPS 180-4), on 32-bit words in [Z] *)
Module sha1.

Definition w32 (x : Z) : Z := x mod 2 ^ 32.

Definition rotl (n x : Z) : Z :=
  w32 (Z.lor (Z.shiftl x n) (Z.shiftr x (32 - n))).

Definition pad (msg : list Z) : list Z :=
  let len := Z.of_nat (List.length msg) in
  (msg ++ [128] ++ repeat 0 (Z.to_nat ((55 - len) mod 64))
       ++ binary.be 8 ((8 * len) mod 2 ^ 64))%list.

Fixpoint words (l : list Z) : list Z :=
  match l with
  | a :: b :: c :: d :: r =>
      (Z.shiftl a 24 + Z.shiftl b 16 + Z.shiftl c 8 + d) :: words r
  | _ => []
  end.

(** The message schedule, most recent word first. *)
Fixpoint extend (n : nat) (w : list Z) : list Z :=
  match n with
  | O => w
  | S k =>
      extend k
        (rotl 1 (Z.lxor (Z.lxor (nth 2 w 0) (nth 7 w 0))
                        (Z.lxor (nth 13 w 0) (nth 15 w 0))) :: w)
  end.

Definition State : Type := (Z * Z * Z * Z * Z)%type.

Definition init : State :=
  (0x67452301, 0xEFCDAB89, 0x98BADCFE, 0x10325476, 0xC3D2E1F0).

Definition round (t : Z) (s : State) (wt : Z) : State :=
  let '(a, b, c, d, e) := s in
  let '(f, k) :=
    if t <? 20 then
      (Z.lor (Z.land b c) (Z.land (w32 (Z.lnot b)) d), 0x5A827999)
    else if t <? 40 then (Z.lxor (Z.lxor b c) d, 0x6ED9EBA1)
    else if t <? 60 then
      (Z.lor (Z.lor (Z.land b c) (Z.land b d)) (Z.land c d), 0x8F1BBCDC)
    else (Z.lxor (Z.lxor b c) d, 0xCA62C1D6) in
  (w32 (rotl 5 a + f + e + k + wt), a, rotl 30 b, c, d).

Fixpoint rounds (t : Z) (s : State) (w : list Z) : State :=
  match w with
  | [] => s
  | wt :: r => rounds (t + 1) (round t s wt) r
  end.

Definition block (s : State) (blk : list Z) : State :=
  let w := rev (extend 64 (rev (words blk))) in
  let '(a, b, c, d, e) := rounds 0 s w in
  let '(h0, h1, h2, h3, h4) := s in
  (w32 (h0 + a), w32 (h1 + b), w32 (h2 + c), w32 (h3 + d), w32 (h4 + e)).

Fixpoint blocks (n : nat) (s : State) (l : list Z) : State :=
  match n with
  | O => s
  | S k => blocks k (block s (firstn 64 l)) (skipn 64 l)
  end.

(** The running hash: what has been written so far. *)
Definition Hash : Type := list Z.

Definition New : Hash := [].

Definition Write (h : Hash) (p : list Z) : Hash := (h ++ p)%list.

(** [h.Sum(nil)]: the twenty bytes of the digest. *)
Definition Sum (h : Hash) : list Z :=
  let m := pad h in
  let '(h0, h1, h2, h3, h4) :=
    blocks (List.length m / 64) init m in
  (binary.be 4 h0 ++ binary.be 4 h1 ++ binary.be 4 h2
     ++ binary.be 4 h3 ++ binary.be 4 h4)%list.

End sha1.

(** ** Package [strconv] *)
Module strconv.

Definition digit (d : Z) : ascii :=
  if d <? 10 then ascii_of_nat (Z.to_nat (48 + d))
  else ascii_of_nat (Z.to_nat (87 + d)).

Fixpoint digits (fuel : nat) (u base : Z) (acc : string) : string :=
  match fuel with
  | O => acc
  | S k =>
      let acc' := String (digit (u mod base)) acc in
      if u / base =? 0 then acc' else digits k (u / base) base acc'
  end.

(** [strconv.FormatInt(i, base)] panics unless [2 <= base <= 36]. *)
Definition FormatInt (i : Z) (base : Z) : Outcome string :=
  if (base <? 2) || (36 <? base) then
    Panics "strconv: illegal AppendInt/FormatInt base"
  else
    let s := digits 64 (Z.abs i) base "" in
    Returns (if i <? 0 then String "-"%char s else s).

Definition FormatBool (b : bool) : string :=
  if b then "true" else "false".

(** [strconv.ParseBool]: [None] is the syntax error. *)
Definition ParseBool (s : string) : option bool :=
  if existsb (String.eqb s) ["1"; "t"; "T"; "TRUE"; "true"; "True"]
  then Some true
  else if existsb (String.eqb s) ["0"; "f"; "F"; "FALSE"; "false"; "False"]
  then Some false
  else None.

(** [strconv.ParseInt(s, 0, 64)] (as of Go 1.13: the base is read from the
    prefix, and [_] may separate digits).  The result is the pair the
    function returns: [0] with a syntax error, the nearest bound with a
    range error. *)
Definition ErrSyntax : string := "invalid syntax".
Definition ErrRange : string := "value out of range".

Definition code (c : ascii) : Z := Z.of_nat (nat_of_ascii c).

(** [lower(c) = c | ('x' - 'X')]. *)
Definition lower (c : ascii) : Z := Z.lor (code c) 32.

Definition is_digit (c : ascii) : bool := (48 <=? code c) && (code c <=? 57).

Definition is_letter (c : ascii) : bool := (97 <=? lower c) && (lower c <=? 122).

Definition is_prefix_letter (c : ascii) : bool :=
  (lower c =? 98) || (lower c =? 111) || (lower c =? 120).

(** [underscoreOK]: underscores only between digits or after the base
    prefix.  [saw] is the class of the last character: ["^"] beginning,
    ["0"] digit, ["_"] underscore, ["!"] none of these. *)
Fixpoint underscore_scan (hex : bool) (saw : ascii) (s : list ascii) : bool :=
  match s with
  | [] => negb (Ascii.eqb saw "_")
  | c :: r =>
      if is_digit c || (hex && (97 <=? lower c) && (lower c <=? 102))
      then underscore_scan hex "0" r
      else if Ascii.eqb c "_" then
        if negb (Ascii.eqb saw "0") then false
        else underscore_scan hex "_" r
      else if Ascii.eqb saw "_" then false
      else underscore_scan hex "!" r
  end.

Definition underscoreOK (s : list ascii) : bool :=
  let s := match s with
           | c :: r => if Ascii.eqb c "-" || Ascii.eqb c "+" then r else s
           | [] => s
           end in
  match s with
  | z :: p :: r =>
      if Ascii.eqb z "0" && is_prefix_letter p
      then underscore_scan (lower p =? 120) "0" r
      else underscore_scan false "^" s
  | _ => underscore_scan false "^" s
  end.

Definition maxUint64 : Z := 2 ^ 64 - 1.

(** The digit loop of [ParseUint]: [Some] of the number and whether an
    underscore was seen, or the early return. *)
Fixpoint parse_digits (base : Z) (s : list ascii) (n : Z) (underscores : bool)
  : (Z * bool) + (Z * string) :=
  match s with
  | [] => inl (n, underscores)
  | c :: r =>
      if Ascii.eqb c "_" then parse_digits base r n true
      else
        let d := if is_digit c then Some (code c - 48)
                 else if is_letter c then Some (lower c - 97 + 10)
                 else None in
        match d with
        | None => inr (0, ErrSyntax)
        | Some d =>
            if base <=? d then inr (0, ErrSyntax)
            else if maxUint64 / base + 1 <=? n then inr (maxUint64, ErrRange)
            else if maxUint64 <? n * base + d then inr (maxUint64, ErrRange)
            else parse_digits base r (n * base + d) underscores
        end
  end.

(** [strconv.ParseUint(s, 0, 64)]. *)
Definition ParseUint (s0 : list ascii) : Z * option string :=
  match s0 with
  | [] => (0, Some ErrSyntax)
  | c0 :: r0 =>
      let '(base, s) :=
        if Ascii.eqb c0 "0" then
          match r0 with
          | p :: (_ :: _) as r =>
              if lower p =? 98 then (2, tl r0)
              else if lower p =? 111 then (8, tl r0)
              else if lower p =? 120 then (16, tl r0)
              else (8, r0)
          | _ => (8, r0)
          end
        else (10, s0) in
      match parse_digits base s 0 false with
      | inr (n, e) => (n, Some e)
      | inl (n, underscores) =>
          if underscores && negb (underscoreOK s0) then (0, Some ErrSyntax)
          else (n, None)
      end
  end.

Definition ParseInt (str : string) : Z * option string :=
  match strings.chars str with
  | [] => (0, Some ErrSyntax)
  | c :: r =>
      let neg := Ascii.eqb c "-" in
      let s := if Ascii.eqb c "+" || neg then r else c :: r in
      let '(un, err) := ParseUint s in
      if match err with
         | Some e => negb (String.eqb e ErrRange)
         | None => false
         end
      then (0, err)
      else
        let cutoff := 2 ^ 63 in
        if negb neg && (cutoff <=? un) then (cutoff - 1, Some ErrRange)
        else if neg && (cutoff <? un) then (- cutoff, Some ErrRange)
        else (if neg then - un else un, None)
  end.

End strconv.

(** ** Errors *)

(** The package's error values, the driver's errors and the wrapper of
    [liberr].  [NotFound] is declared elsewhere in the package; it is the
    error of an [Update] or a [Get] that reached no row.  [Sqlite3Error] is the driver's [sqlite3.Error] with its
    [Code] and [ExtendedCode]; [ForeignError] is an error of any other
    dynamic type (other drivers, [strconv], [text/template]). *)
Inductive error : Type :=
| MustHavePkErr
| MustBePtrErr
| MustBeSlicePtrErr
| MustBeObjectErr
| FieldTypeErr
| PkTypeErr
| GenPkTypeErr
| PredicateRefErr
| PredicateTypeErr
| PredicateValueErr
| NotFound
| TxInvalidError
| Sqlite3Error (Code ExtendedCode : Z)
| ForeignError (msg : string)
| Wrapped (cause : error).

(** Modelled from the spec: [liberr.Wrap] of package [pkg/error], which
    lives outside package [model].  An error is wrapped with call-site
    context and keeps its kind; [nil] stays [nil]; an error that already
    carries the context is returned as it is. *)
Definition Wrap (e : error) : error :=
  match e with
  | Wrapped _ => e
  | _ => Wrapped e
  end.

Definition liberr_Wrap (err : option error) : option error :=
  option_map Wrap err.

(** A result with its error, for the functions that return [(x, err)]. *)
Inductive result (A : Type) : Type :=
| Ok (a : A)
| Err (e : error).
Arguments Ok {A} a.
Arguments Err {A} e.

(** ** Package [reflect]: kinds and cells *)
Module reflect.

Inductive Kind : Type :=
| Invalid | Bool | Int | Int8 | Int16 | Int32 | Int64
| String | Struct | Slice | Map | Ptr
| Other (* unsigned, float, complex, array, chan, func, interface, ... *).

End reflect.

(** The signed integer types of a cell. *)
Inductive IntType : Type := TInt | TInt8 | TInt16 | TInt32 | TInt64.

(** [int] is taken as 64 bits wide. *)
Definition bits (t : IntType) : Z :=
  match t with
  | TInt => 64 | TInt8 => 8 | TInt16 => 16 | TInt32 => 32 | TInt64 => 64
  end.

(** What a cell of a record holds.  A struct is the list of its members in
    declaration order, each with its name, its [sql] tag when it has one,
    and whether it can be set (it is exported). *)
#[warnings="-register-all"]
Inductive GoValue : Type :=
| VBool (b : bool)
| VInt (t : IntType) (n : Z)
| VString (s : string)
| VStruct (ms : Members)
| VSlice (elems : option (list GoValue))
| VMap (entries : option (list (GoValue * GoValue)))
| VOther
with Members : Type :=
| MNil
| MCons (Name : string) (Tag : option string) (CanSet : bool)
        (v : GoValue) (rest : Members).

Definition Kind (v : GoValue) : reflect.Kind :=
  match v with
  | VBool _ => reflect.Bool
  | VInt TInt _ => reflect.Int
  | VInt TInt8 _ => reflect.Int8
  | VInt TInt16 _ => reflect.Int16
  | VInt TInt32 _ => reflect.Int32
  | VInt TInt64 _ => reflect.Int64
  | VString _ => reflect.String
  | VStruct _ => reflect.Struct
  | VSlice _ => reflect.Slice
  | VMap _ => reflect.Map
  | VOther => reflect.Other
  end.

(** A reference to a cell: the member indexes from the record down. *)
Definition Ref : Type := list nat.

Fixpoint member (ms : Members) (i : nat) : option GoValue :=
  match ms, i with
  | MNil, _ => None
  | MCons _ _ _ v _, O => Some v
  | MCons _ _ _ _ r, S k => member r k
  end.

Fixpoint set_member (ms : Members) (i : nat) (g : GoValue -> GoValue)
  : Members :=
  match ms, i with
  | MNil, _ => MNil
  | MCons n t c v r, O => MCons n t c (g v) r
  | MCons n t c v r, S k => MCons n t c v (set_member r k g)
  end.

(** The cell a reference points to in record [h]. *)
Fixpoint deref (h : GoValue) (p : Ref) : option GoValue :=
  match p with
  | [] => Some h
  | i :: p' =>
      match h with
      | VStruct ms =>
          match member ms i with
          | Some v => deref v p'
          | None => None
          end
      | _ => None
      end
  end.

(** Record [h] after [x] is stored in the cell at [p]. *)
Fixpoint assign (p : Ref) (x : GoValue) (h : GoValue) : GoValue :=
  match p with
  | [] => x
  | i :: p' =>
      match h with
      | VStruct ms => VStruct (set_member ms i (assign p' x))
      | _ => h
      end
  end.

(** ** What the package takes from outside

    [encoding/json] on the cells of a record: [json_Marshal v] is the text
    of [v] unless marshalling fails, and [json_Unmarshal s old] is the
    value decoded from [s] into a fresh cell of the type of [old], unless
    decoding fails. *)
Class GoLib : Type := {
  json_Marshal : GoValue -> option string;
  json_Unmarshal : string -> GoValue -> option GoValue
}.

(** ** Field *)

(** A dynamic value ([interface{}]) as the package produces them. *)
Inductive Any : Type :=
| ANil
| AString (s : string)
| ABool (b : bool)
| AInt (n : Z)
| AInt64 (n : Z).

(** The literal handed to [AsValue]: nil, a pointer (possibly nil), or a
    plain value. *)
Inductive Object : Type :=
| ONil
| OPtr (target : option GoValue)
| OValue (v : GoValue).

(** What a pointer returned by [Ptr] points at: one of the two staging
    cells, with its content. *)
Inductive Dest : Type :=
| DestInt (n : Z)
| DestString (s : string).

(** Model (struct) field: the reference to the live cell, the tag, the
    name, the two staging cells and the parameter flag. *)
Record Field : Type := mkField {
  Value : Ref;
  Tag : string;
  Name : string;
  f_string : string;
  f_int : Z;
  isParam : bool
}.

Definition set_string (f : Field) (s : string) : Field :=
  mkField (Value f) (Tag f) (Name f) s (f_int f) (isParam f).

Definition set_int (f : Field) (n : Z) : Field :=
  mkField (Value f) (Tag f) (Name f) (f_string f) n (isParam f).

Definition set_isParam (f : Field) (b : bool) : Field :=
  mkField (Value f) (Tag f) (Name f) (f_string f) (f_int f) b.

(** FK constraint. *)
Record FK : Type := mkFK {
  FK_Table : string;
  FK_Field : string
}.

(** The live cell of a field in record [h], and its kind. *)
Definition cell (h : GoValue) (f : Field) : option GoValue :=
  deref h (Value f).

Definition FieldKind (h : GoValue) (f : Field) : reflect.Kind :=
  match cell h f with
  | Some v => Kind v
  | None => reflect.Invalid
  end.

(** Get whether field has an option. *)
Definition hasOpt (f : Field) (name : string) : bool :=
  existsb (fun opt => String.eqb (strings.TrimSpace opt) name)
          (strings.Split (Tag f)).

Definition Pk (f : Field) : bool := hasOpt f "pk".

Definition Key (f : Field) : bool := hasOpt f "key".

Definition Virtual (f : Field) : bool := hasOpt f "virtual".

Definition Mutable (f : Field) : bool :=
  if Pk f || Key f || Virtual f then false
  else negb (hasOpt f "const").

(** The [unique(G)] groups of the field, in tag order. *)
Definition Unique (f : Field) : list string :=
  flat_map
    (fun opt =>
       match regexp.FindStringSubmatch UniqueRegex (strings.TrimSpace opt) with
       | Some m => if Nat.eqb (List.length m) 5 then [nth 3 m ""] else []
       | None => []
       end)
    (strings.Split (Tag f)).

(** The first [fk:T(F)] option of the field. *)
Definition Fk (f : Field) : option FK :=
  let fix first (opts : list string) : option FK :=
    match opts with
    | [] => None
    | opt :: r =>
        match regexp.FindStringSubmatch FkRegex (strings.TrimSpace opt) with
        | Some m =>
            if Nat.eqb (List.length m) 6
            then Some (mkFK (nth 2 m "") (nth 4 m ""))
            else first r
        | None => first r
        end
    end in
  first (strings.Split (Tag f)).

Definition FK_DDL (fk : FK) (field : Field) : string :=
  "FOREIGN KEY (" ++ Name field ++ ") REFERENCES " ++ FK_Table fk
    ++ " (" ++ FK_Field fk ++ ") ON DELETE CASCADE".

(** Get as SQL param: flags the field. *)
Definition Param (f : Field) : Field * string :=
  (set_isParam f true, ":" ++ Name f).

Section WithLib.

Context {lib : GoLib}.

(** Validate. *)
Definition Field_Validate (h : GoValue) (f : Field) : option error :=
  match FieldKind h f with
  | reflect.String | reflect.Int | reflect.Int8 | reflect.Int16
  | reflect.Int32 | reflect.Int64 => None
  | _ => if Pk f then liberr_Wrap (Some PkTypeErr) else None
  end.

(** Pull from model: populate the staging cell from the live cell, and
    return the staged value. *)
Definition Pull (h : GoValue) (f : Field) : Field * Any :=
  match cell h f with
  | Some (VStruct _ as object) =>
      let f := match json_Marshal object with
               | Some b => set_string f b
               | None => f
               end in
      (f, AString (f_string f))
  | Some (VSlice elems as object) =>
      let f := match elems with
               | Some _ => match json_Marshal object with
                           | Some b => set_string f b
                           | None => f
                           end
               | None => set_string f "[]"
               end in
      (f, AString (f_string f))
  | Some (VMap entries as object) =>
      let f := match entries with
               | Some _ => match json_Marshal object with
                           | Some b => set_string f b
                           | None => f
                           end
               | None => set_string f "{}"
               end in
      (f, AString (f_string f))
  | Some (VString s) =>
      let f := set_string f s in
      (f, AString (f_string f))
  | Some (VBool b) =>
      let f := if b then set_int f 1 else f in
      (f, AInt64 (f_int f))
  | Some (VInt t n) =>
      let f := set_int f (wrap (bits t) n) in
      (f, AInt64 (f_int f))
  | Some VOther | None => (f, ANil)
  end.

(** Pointer used for Scan(). *)
Definition Ptr (h : GoValue) (f : Field) : Dest :=
  match FieldKind h f with
  | reflect.Bool | reflect.Int | reflect.Int8 | reflect.Int16
  | reflect.Int32 | reflect.Int64 => DestInt (f_int f)
  | _ => DestString (f_string f)
  end.

(** Push to the model: set the live cell from the staging cell.  The
    result is the record after the store. *)
Definition Push (h : GoValue) (f : Field) : GoValue :=
  match cell h f with
  | Some (VStruct _ as old) | Some (VSlice _ as old) | Some (VMap _ as old) =>
      if Nat.eqb (String.length (f_string f)) 0 then h
      else match json_Unmarshal (f_string f) old with
           | Some tv => assign (Value f) tv h
           | None => h
           end
  | Some (VString _) => assign (Value f) (VString (f_string f)) h
  | Some (VBool _) =>
      let b := if f_int f =? 0 then false else true in
      assign (Value f) (VBool b) h
  | Some (VInt t _) => assign (Value f) (VInt t (wrap (bits t) (f_int f))) h
  | Some VOther | None => h
  end.

(** Column DDL. *)
Definition Field_DDL (h : GoValue) (f : Field) : string :=
  let type :=
    match FieldKind h f with
    | reflect.Bool | reflect.Int | reflect.Int8 | reflect.Int16
    | reflect.Int32 | reflect.Int64 => "INTEGER"
    | _ => "TEXT"
    end in
  let constraint := if Pk f then "PRIMARY KEY" else "NOT NULL" in
  strings.Join [Name f; type; constraint] " ".

(** [reflect.ValueOf(object)] after the first switch of [AsValue]: a
    pointer is followed (a nil pointer gives the invalid value), a
    composite is refused. *)
Definition literal (object : Object) : option GoValue + error :=
  match object with
  | ONil => inl None
  | OPtr target => inl target
  | OValue (VStruct _) | OValue (VSlice _) | OValue (VMap _) =>
      inr PredicateValueErr
  | OValue v => inl (Some v)
  end.

(** Convert the specified [object] to a value (type) appropriate for the
    field.  In the integer case with a string literal the source writes
    [n, err := strconv.ParseInt(...)]: that [err] is a new variable of the
    case clause, the wrapped error is assigned to it, and the result [err]
    of the function is left nil. *)
Definition AsValue (h : GoValue) (f : Field) (object : Object)
  : Outcome (Any * option error) :=
  match literal object with
  | inr e => Returns (ANil, liberr_Wrap (Some e))
  | inl val =>
      match FieldKind h f with
      | reflect.String =>
          match val with
          | Some (VString s) => Returns (AString s, None)
          | Some (VBool b) => Returns (AString (strconv.FormatBool b), None)
          | Some (VInt t n) =>
              match strconv.FormatInt (wrap (bits t) n) 0 with
              | Returns s => Returns (AString s, None)
              | Panics msg => Panics msg
              end
          | _ => Returns (ANil, liberr_Wrap (Some PredicateValueErr))
          end
      | reflect.Bool =>
          match val with
          | Some (VString s) =>
              match strconv.ParseBool s with
              | None =>
                  Returns (ANil, liberr_Wrap (Some (ForeignError strconv.ErrSyntax)))
              | Some b => Returns (ABool b, None)
              end
          | Some (VBool b) => Returns (ABool b, None)
          | Some (VInt t n) =>
              Returns (ABool (negb (wrap (bits t) n =? 0)), None)
          | _ => Returns (ANil, liberr_Wrap (Some PredicateValueErr))
          end
      | reflect.Int | reflect.Int8 | reflect.Int16
      | reflect.Int32 | reflect.Int64 =>
          match val with
          | Some (VString s) =>
              let '(n, err) := strconv.ParseInt s in
              let err := match err with
                         | Some e => liberr_Wrap (Some (ForeignError e))
                         | None => None
                         end in
              Returns (AInt64 n, None)
          | Some (VBool b) => Returns (AInt (if b then 1 else 0), None)
          | Some (VInt t n) => Returns (AInt64 (wrap (bits t) n), None)
          | _ => Returns (ANil, liberr_Wrap (Some PredicateValueErr))
          end
      | _ => Returns (ANil, liberr_Wrap (Some FieldTypeErr))
      end
  end.

(** ** Table *)

(** The [model interface{}] handed to a table operation: a pointer to a
    value of the named type (or a nil pointer), or something that is not a
    pointer. *)
Inductive Model : Type :=
| Pointer (TypeName : string) (target : option GoValue)
| NotPointer (TypeName : string) (v : GoValue).

(** Get the table name for the model. *)
Definition Table_Name (model : Model) : string :=
  match model with
  | Pointer n _ => n
  | NotPointer n _ => n
  end.

(** The loop of [Fields] over the members of a struct found at [path],
    from member [i] on.  An untagged struct member is flattened by the
    recursive call (which receives a pointer to a struct, so that its two
    checks pass and its error branch is not taken). *)
Fixpoint struct_fields (ms : Members) (path : Ref) (i : nat) : list Field :=
  match ms with
  | MNil => []
  | MCons name tag canSet fv rest =>
      ((if canSet then
          match fv with
          | VStruct nested =>
              match tag with
              | None => struct_fields nested (path ++ [i])%list 0
              | Some sqlTag =>
                  [mkField (path ++ [i])%list sqlTag name "" 0 false]
              end
          | VSlice _ | VMap _ | VString _ | VBool _ | VInt _ _ =>
              match tag with
              | None => []
              | Some sqlTag =>
                  [mkField (path ++ [i])%list sqlTag name "" 0 false]
              end
          | VOther => []
          end
        else [])
         ++ struct_fields rest path (S i))%list
  end.

(** Get the [Fields] for the model. *)
Definition Fields (model : Model) : result (list Field) :=
  match model with
  | NotPointer _ _ => Err (Wrap MustBePtrErr)
  | Pointer _ (Some (VStruct ms)) => Ok (struct_fields ms [] 0)
  | Pointer _ _ => Err (Wrap MustBeObjectErr)
  end.

(** The record behind the model, where the fields point. *)
Definition record (model : Model) : GoValue :=
  match model with
  | Pointer _ (Some h) => h
  | Pointer _ None => VOther
  | NotPointer _ v => v
  end.

(** The model once its record has become [h]. *)
Definition with_record (model : Model) (h : GoValue) : Model :=
  match model with
  | Pointer n (Some _) => Pointer n (Some h)
  | _ => model
  end.

(** Get the mutable [Fields] for the model. *)
Definition MutableFields (fields : list Field) : list Field :=
  filter Mutable fields.

(** Get the natural key [Fields] for the model. *)
Definition KeyFields (fields : list Field) : list Field :=
  filter Key fields.

(** Get the non-virtual [Fields] for the model. *)
Definition RealFields (fields : list Field) : list Field :=
  filter (fun f => negb (Virtual f)) fields.

(** Get the PK field. *)
Definition PkField (fields : list Field) : option Field :=
  find Pk fields.

(** A store through the pointer a search such as [PkField] returned: the
    first field that satisfies [p] is replaced by its image. *)
Fixpoint modify_first (p : Field -> bool) (g : Field -> Field)
         (fields : list Field) : list Field :=
  match fields with
  | [] => []
  | f :: r => if p f then g f :: r else f :: modify_first p g r
  end.

(** The [unique] map of [Constraints]: group label to field names.  The
    association list keeps one entry a label. *)
Definition GoMap : Type := list (string * list string).

Fixpoint map_append (m : GoMap) (name field : string) : GoMap :=
  match m with
  | [] => [(name, [field])]
  | (k, list) :: r =>
      if String.eqb k name then (k, (list ++ [field])%list) :: r
      else (k, list) :: map_append r name field
  end.

(** The order in which [range] visits the entries of a map.  Go leaves it
    unspecified, and it may differ from one loop to the next. *)
Definition MapOrder : Type := GoMap -> GoMap.

Definition valid_order (range : MapOrder) : Prop :=
  forall m, Permutation (range m) m.

(** The first loop of [Constraints]. *)
Definition unique_groups (fields : list Field) : GoMap :=
  fold_left
    (fun unique field =>
       fold_left (fun unique name => map_append unique name (Name field))
                 (Unique field) unique)
    fields [].

Definition unique_clause (entry : string * list string) : string :=
  "UNIQUE (" ++ strings.Join (snd entry) "," ++ ")".

(** The third loop of [Constraints]. *)
Definition fk_clauses (fields : list Field) : list string :=
  flat_map
    (fun field =>
       match Fk field with
       | Some fk => [FK_DDL fk field]
       | None => []
       end)
    fields.

(** Get constraint DDL. *)
Definition Constraints (range : MapOrder) (fields : list Field)
  : list string :=
  (map unique_clause (range (unique_groups fields)) ++ fk_clauses fields)%list.

(** *** Templates

    [text/template] executed on the constant templates of the package.
    An action closed by [-}}] swallows the white space after it, so every
    element of a [range] gives one line, preceded by a comma when its
    index is not zero. *)
Definition LF : string := String (ascii_of_nat 10) "".

Fixpoint range_lines (i : nat) (items : list string) : string :=
  match items with
  | [] => ""
  | x :: r =>
      (match i with O => "" | S _ => "," end) ++ x ++ LF
        ++ range_lines (S i) r
  end.

Definition TableDDL (table : string) (columns constraints : list string)
  : string :=
  LF ++ "CREATE TABLE IF NOT EXISTS " ++ table ++ " (" ++ LF
     ++ range_lines 0 columns
     ++ String.concat "" (map (fun c => "," ++ c ++ LF) constraints)
     ++ ");" ++ LF.

Definition IndexDDL (table : string) (names : list string) : string :=
  LF ++ "CREATE INDEX IF NOT EXISTS " ++ table ++ "Index" ++ LF
     ++ "ON " ++ table ++ LF ++ "(" ++ LF
     ++ range_lines 0 names
     ++ ");" ++ LF.

Definition InsertSQL (table : string) (names params : list string) : string :=
  LF ++ "INSERT INTO " ++ table ++ " (" ++ LF
     ++ range_lines 0 names
     ++ ")" ++ LF ++ "VALUES (" ++ LF
     ++ range_lines 0 params
     ++ ");" ++ LF.

Definition UpdateSQL (table : string) (sets : list string) (pk pkParam : string)
  : string :=
  LF ++ "UPDATE " ++ table ++ LF ++ "SET" ++ LF
     ++ range_lines 0 sets
     ++ "WHERE" ++ LF ++ pk ++ " = " ++ pkParam ++ LF ++ ";" ++ LF.

Definition DeleteSQL (table : string) (pk pkParam : string) : string :=
  LF ++ "DELETE FROM " ++ table ++ LF
     ++ "WHERE" ++ LF ++ pk ++ " = " ++ pkParam ++ LF ++ ";" ++ LF.

Definition GetSQL (table : string) (names : list string) (pk pkParam : string)
  : string :=
  LF ++ "SELECT" ++ LF
     ++ range_lines 0 names
     ++ "FROM " ++ table ++ LF
     ++ "WHERE" ++ LF ++ pk ++ " = " ++ pkParam ++ LF ++ ";" ++ LF.

(** The error of a template that evaluates [.Pk.Name] with a nil [Pk]. *)
Definition nilPkErr : error :=
  ForeignError "template: nil pointer evaluating *model.Field.Name".

(** Build model insert SQL.  [$f.Param] flags every real field. *)
Definition insertSQL (table : string) (fields : list Field)
  : list Field * result string :=
  let real := RealFields fields in
  (map (fun f => if negb (Virtual f) then fst (Param f) else f) fields,
   Ok (InsertSQL table (map Name real) (map (fun f => snd (Param f)) real))).

(** Build model update SQL. *)
Definition updateSQL (table : string) (fields : list Field)
  : list Field * result string :=
  let mutable := MutableFields fields in
  let fields := map (fun f => if Mutable f then fst (Param f) else f) fields in
  match PkField fields with
  | None => (fields, Err (Wrap nilPkErr))
  | Some pk =>
      (modify_first Pk (fun f => fst (Param f)) fields,
       Ok (UpdateSQL table
             (map (fun f => Name f ++ " = " ++ snd (Param f)) mutable)
             (Name pk) (snd (Param pk))))
  end.

(** Build model delete SQL. *)
Definition deleteSQL (table : string) (fields : list Field)
  : list Field * result string :=
  match PkField fields with
  | None => (fields, Err (Wrap nilPkErr))
  | Some pk =>
      (modify_first Pk (fun f => fst (Param f)) fields,
       Ok (DeleteSQL table (Name pk) (snd (Param pk))))
  end.

(** Build model get SQL. *)
Definition getSQL (table : string) (fields : list Field)
  : list Field * result string :=
  match PkField fields with
  | None => (fields, Err (Wrap nilPkErr))
  | Some pk =>
      (modify_first Pk (fun f => fst (Param f)) fields,
       Ok (GetSQL table (map Name fields) (Name pk) (snd (Param pk))))
  end.

(** Validate the model. *)
Definition Validate (h : GoValue) (fields : list Field) : option error :=
  let fix each (l : list Field) : option error :=
    match l with
    | [] => None
    | f :: r =>
        match Field_Validate h f with
        | Some err => liberr_Wrap (Some err)
        | None => each r
        end
    end in
  match each fields with
  | Some err => Some err
  | None =>
      match PkField fields with
      | None => liberr_Wrap (Some MustHavePkErr)
      | Some _ => None
      end
  end.

(** Get table and index create DDL. *)
Definition DDL (range : MapOrder) (model : Model) : result (list string) :=
  match Fields model with
  | Err err => Err (Wrap err)
  | Ok fields =>
      let h := record model in
      match Validate h fields with
      | Some err => Err (Wrap err)
      | None =>
          let constraints := Constraints range fields in
          let table :=
            TableDDL (Table_Name model)
                     (map (Field_DDL h) (RealFields fields)) constraints in
          let fields := KeyFields fields in
          if Nat.ltb 0 (List.length fields) then
            Ok [table;
                IndexDDL (Table_Name model) (map Name (RealFields fields))]
          else Ok [table]
      end
  end.

(** A named parameter of a statement, [sql.Named(name, value)]. *)
Record NamedArg : Type := Named {
  Arg_Name : string;
  Arg_Value : Any
}.

(** Get the [Fields] referenced as param in SQL. *)
Fixpoint Params (h : GoValue) (fields : list Field)
  : list Field * list NamedArg :=
  match fields with
  | [] => ([], [])
  | f :: r =>
      if isParam f then
        let '(f', v) := Pull h f in
        let '(r', list) := Params h r in
        (f' :: r', Named (Name f) v :: list)
      else
        let '(r', list) := Params h r in
        (f :: r', list)
  end.

(** The loop of [SetPk] over the key fields: each one is pulled and its
    staged value written to the hash. *)
Fixpoint hash_keys (h : GoValue) (fields : list Field) (hash : sha1.Hash)
  : list Field * sha1.Hash :=
  match fields with
  | [] => ([], hash)
  | f :: r =>
      if Key f then
        let f := fst (Pull h f) in
        let hash :=
          match FieldKind h f with
          | reflect.String =>
              sha1.Write hash (bytes_of_string (f_string f))
          | reflect.Bool | reflect.Int | reflect.Int8 | reflect.Int16
          | reflect.Int32 | reflect.Int64 =>
              sha1.Write hash (binary.BigEndian_int64 (f_int f))
          | _ => hash
          end in
        let '(r', hash) := hash_keys h r hash in
        (f :: r', hash)
      else
        let '(r', hash) := hash_keys h r hash in
        (f :: r', hash)
  end.

(** Set PK.  Generated when not already set as sha1 of the (const)
    natural keys.  Returns the record, the fields and the error. *)
Definition SetPk (h : GoValue) (fields : list Field)
  : GoValue * list Field * option error :=
  match PkField fields with
  | None => (h, fields, None)
  | Some pk =>
      match FieldKind h pk with
      | reflect.String =>
          let fields := modify_first Pk (fun f => fst (Pull h f)) fields in
          if negb (String.eqb (f_string (fst (Pull h pk))) "") then
            (h, fields, None)
          else
            let '(fields, hash) := hash_keys h fields sha1.New in
            let digest := hex.EncodeToString (sha1.Sum hash) in
            let fields := modify_first Pk (fun f => set_string f digest) fields in
            match PkField fields with
            | Some pk => (Push h pk, fields, None)
            | None => (h, fields, None)
            end
      | _ => (h, fields, liberr_Wrap (Some GenPkTypeErr))
      end
  end.

(** *** The driver *)

(** Modelled from the spec: the interface [Row], declared elsewhere in
    the package.  A row hands its columns to [Scan], which stores into the
    destinations it is given and reports an error. *)
Definition Row : Type := list Dest -> list Dest * option error.

Record Result : Type := mkResult {
  RowsAffected : Z * option error
}.

(** Modelled from the spec: the interface [DBTX], declared elsewhere in
    the package: what the table needs of a connection or a transaction,
    [Exec(sql, params...)] and [QueryRow(sql, params...)].  The database
    behind it is a state of type [Conn] that every call may change. *)
Record DBTX (Conn : Type) : Type := mkDBTX {
  Exec : Conn -> string -> list NamedArg -> Conn * result Result;
  QueryRow : Conn -> string -> list NamedArg -> Conn * Row
}.

(** Represents a table in the DB. *)
Record Table (Conn : Type) : Type := mkTable {
  DB : DBTX Conn
}.

(** [sqlite3.ErrConstraint], the primary result code of every constraint
    violation, and two of its extended codes. *)
Definition ErrConstraint : Z := 19.
Definition ErrConstraintPrimaryKey : Z := 1555.
Definition ErrConstraintUnique : Z := 2067.

(** What [Scan] left in the staging cell a destination pointed to. *)
Definition store (h : GoValue) (f : Field) (d : Dest) : Field :=
  match Ptr h f, d with
  | DestInt _, DestInt n => set_int f (wrap 64 n)
  | DestString _, DestString s => set_string f s
  | _, _ => f
  end.

Fixpoint store_all (h : GoValue) (fields : list Field) (ds : list Dest)
  : list Field :=
  match fields, ds with
  | f :: r, d :: ds' => store h f d :: store_all h r ds'
  | _, _ => fields
  end.

(** Scan the fetch row into the model.  The model fields are updated. *)
Definition scan (h : GoValue) (row : Row) (fields : list Field)
  : GoValue * list Field * option error :=
  let fields := map (fun f => fst (Pull h f)) fields in
  let list := map (Ptr h) fields in
  let '(cells, err) := row list in
  let fields := store_all h fields cells in
  match err with
  | None => (fold_left Push fields h, fields, liberr_Wrap err)
  | Some _ => (h, fields, liberr_Wrap err)
  end.

Section WithConn.

Variable Conn : Type.

(** Update the model in the DB. *)
Definition Update (t : Table Conn) (model : Model) (c : Conn)
  : Conn * Model * option error :=
  match Fields model with
  | Err err => (c, model, Some (Wrap err))
  | Ok fields =>
      let '(h, fields, _) := SetPk (record model) fields in
      let model := with_record model h in
      match updateSQL (Table_Name model) fields with
      | (_, Err err) => (c, model, Some (Wrap err))
      | (fields, Ok stmt) =>
          let '(fields, params) := Params h fields in
          match Exec (DB t) c stmt params with
          | (c, Err err) => (c, model, Some (Wrap err))
          | (c, Ok r) =>
              match RowsAffected r with
              | (_, Some err) => (c, model, Some (Wrap err))
              | (nRows, None) =>
                  if nRows =? 0 then (c, model, Some (Wrap NotFound))
                  else (c, model, None)
              end
          end
      end
  end.

(** Insert the model in the DB. *)
Definition Insert (t : Table Conn) (model : Model) (c : Conn)
  : Conn * Model * option error :=
  match Fields model with
  | Err err => (c, model, Some (Wrap err))
  | Ok fields =>
      let '(h, fields, _) := SetPk (record model) fields in
      let model := with_record model h in
      match insertSQL (Table_Name model) fields with
      | (_, Err err) => (c, model, Some (Wrap err))
      | (fields, Ok stmt) =>
          let '(fields, params) := Params h fields in
          match Exec (DB t) c stmt params with
          | (c, Err err) =>
              match err with
              | Sqlite3Error Code _ =>
                  if Code =? ErrConstraint then Update t model c
                  else (c, model, Some (Wrap err))
              | _ => (c, model, Some (Wrap err))
              end
          | (c, Ok r) =>
              match RowsAffected r with
              | (_, Some err) => (c, model, Some (Wrap err))
              | (_, None) => (c, model, None)
              end
          end
      end
  end.

(** Delete the model in the DB. *)
Definition Delete (t : Table Conn) (model : Model) (c : Conn)
  : Conn * Model * option error :=
  match Fields model with
  | Err err => (c, model, Some (Wrap err))
  | Ok fields =>
      let '(h, fields, _) := SetPk (record model) fields in
      let model := with_record model h in
      match deleteSQL (Table_Name model) fields with
      | (_, Err err) => (c, model, Some (Wrap err))
      | (fields, Ok stmt) =>
          let '(fields, params) := Params h fields in
          match Exec (DB t) c stmt params with
          | (c, Err err) => (c, model, Some (Wrap err))
          | (c, Ok r) =>
              match RowsAffected r with
              | (_, Some err) => (c, model, Some (Wrap err))
              | (nRows, None) =>
                  if nRows =? 0 then (c, model, None)
                  else (c, model, None)
              end
          end
      end
  end.

(** Get the model in the DB. *)
Definition Get (t : Table Conn) (model : Model) (c : Conn)
  : Conn * Model * option error :=
  match Fields model with
  | Err err => (c, model, Some (Wrap err))
  | Ok fields =>
      let '(h, fields, _) := SetPk (record model) fields in
      let model := with_record model h in
      match getSQL (Table_Name model) fields with
      | (_, Err err) => (c, model, Some (Wrap err))
      | (fields, Ok stmt) =>
          let '(fields, params) := Params h fields in
          let '(c, row) := QueryRow (DB t) c stmt params in
          let '(h, _, err) := scan h row fields in
          (c, with_record model h, liberr_Wrap err)
      end
  end.

End WithConn.

End WithLib.

(** ** Client *)

(** How a call on the client ends when it is run alone: it returns, it
    waits for a mutex that is held, or the runtime stops the program
    (unlock of a mutex that is not locked). *)
Inductive Run (A : Type) : Type :=
| Done (a : A)
| Blocks
| Fatal (msg : string).
Arguments Done {A} a.
Arguments Blocks {A}.
Arguments Fatal {A} msg.

(** A [*sql.Tx] or a [*sql.DB]: an address; [nil] is [None]. *)
Definition Addr : Type := nat.

(** Database client.  [Mutex] is the embedded mutex that protects the
    internal state, [mutex] the one that serialises writers; each is [true]
    while it is locked. *)
Record Client : Type := mkClient {
  Mutex : bool;
  mutex : bool;
  path : string;
  models : list Model;
  db : option Addr;
  tx : option Addr
}.

(** Database transaction: the token returned by [Begin]. *)
Record Tx : Type := mkTx {
  ref : option Addr
}.

Definition set_Mutex (r : Client) (b : bool) : Client :=
  mkClient b (mutex r) (path r) (models r) (db r) (tx r).

Definition set_mutex (r : Client) (b : bool) : Client :=
  mkClient (Mutex r) b (path r) (models r) (db r) (tx r).

Definition set_tx (r : Client) (t : option Addr) : Client :=
  mkClient (Mutex r) (mutex r) (path r) (models r) (db r) t.

Definition same_addr (a b : option Addr) : bool :=
  match a, b with
  | Some x, Some y => Nat.eqb x y
  | None, None => true
  | _, _ => false
  end.

Section WithDatabase.

(** The database behind [database/sql], and what completing a
    transaction does to it. *)
Variable World : Type.
Variable sql_Tx_Commit : Addr -> World -> World * option error.
Variable sql_Tx_Rollback : Addr -> World -> World * option error.

Variable sql_DB_Begin : Addr -> World -> World * result Addr.

(** Begin a transaction.  The writer lock is taken and kept; it is kept
    also when the database refuses to begin. *)
Definition Begin (r : Client) (w : World)
  : Run (Client * World * result Tx) :=
  if Mutex r then Blocks
  else
    let r := set_Mutex r true in
    if mutex r then Blocks
    else
      let r := set_mutex r true in
      match db r with
      | None => Fatal "invalid memory address or nil pointer dereference"
      | Some d =>
          match sql_DB_Begin d w with
          | (w, Err err) => Done (set_Mutex r false, w, Err err)
          | (w, Ok p) =>
              let r := set_tx r (Some p) in
              Done (set_Mutex r false, w, Ok (mkTx (Some p)))
          end
      end.

(** Commit a transaction.  The deferred calls run after [Commit] has
    returned, last deferred first: the writer lock is released and the
    transaction cleared, then the state lock is released. *)
Definition commit (r : Client) (t : Tx) (w : World)
  : Run (Client * World * option error) :=
  if Mutex r then Blocks
  else
    let r := set_Mutex r true in
    match tx r with
    | None => Done (set_Mutex r false, w, Some TxInvalidError)
    | Some p =>
        if negb (same_addr (tx r) (ref t)) then
          Done (set_Mutex r false, w, Some TxInvalidError)
        else
          let '(w, err) := sql_Tx_Commit p w in
          if mutex r then
            let r := set_mutex r false in
            let r := set_tx r None in
            Done (set_Mutex r false, w, err)
          else Fatal "sync: unlock of unlocked mutex"
    end.

(** Rollback a transaction. *)
Definition rollback (r : Client) (t : Tx) (w : World)
  : Run (Client * World * option error) :=
  if Mutex r then Blocks
  else
    let r := set_Mutex r true in
    match tx r with
    | None => Done (set_Mutex r false, w, Some TxInvalidError)
    | Some p =>
        if negb (same_addr (tx r) (ref t)) then
          Done (set_Mutex r false, w, Some TxInvalidError)
        else
          let '(w, err) := sql_Tx_Rollback p w in
          if mutex r then
            let r := set_mutex r false in
            let r := set_tx r None in
            Done (set_Mutex r false, w, err)
          else Fatal "sync: unlock of unlocked mutex"
    end.

End WithDatabase.

(** ** Predicates and sample data of the properties *)

(** The token references the transaction the client holds. *)
Definition current (r : Client) (t : Tx) : Prop :=
  exists p, tx r = Some p /\ ref t = Some p.

(** A client in a transaction at address [7], the writer lock held. *)
Definition busy_client : Client :=
  mkClient false true "/tmp/db" [] (Some 1%nat) (Some 7%nat).

(** A database (a counter of completed calls) whose commit fails. *)
Definition failing_commit (p : Addr) (w : nat) : nat * option error :=
  (S w, Some (ForeignError "disk I/O error")).

(** A codec that refuses every cell; it serves records without encoded
    cells, whose operations never reach it. *)
Definition noJSON : GoLib :=
  {| json_Marshal := fun _ => None; json_Unmarshal := fun _ _ => None |}.

(** A record with one tagged cell [V], and the descriptor of that cell
    with [n] and [s] in its staging cells. *)
Definition single (v : GoValue) : GoValue :=
  VStruct (MCons "V" (Some "") true v MNil).

Definition staged (n : Z) (s : string) : Field :=
  mkField [0%nat] "" "V" s n false.

(** The record of scenario S1: [{ID:pk, Name:key, Kind:key, Count:const,
    Data:plain}]. *)
Definition thing (id name kind : string) (count : Z) (data : string)
  : GoValue :=
  VStruct
    (MCons "ID" (Some "pk") true (VString id)
    (MCons "Name" (Some "key") true (VString name)
    (MCons "Kind" (Some "key") true (VString kind)
    (MCons "Count" (Some "const") true (VInt TInt count)
    (MCons "Data" (Some "") true (VString data) MNil))))).

(** A row whose [Scan] fails after it has stored into its destinations. *)
Definition broken_row : Row :=
  fun dests =>
    (map (fun d => match d with
                   | DestInt _ => DestInt 99
                   | DestString _ => DestString "junk"
                   end) dests,
     Some (ForeignError "sql: Scan error")).

(** The fields of a model that has some. *)
Definition fields_of (model : Model) : list Field :=
  match Fields model with
  | Ok fields => fields
  | Err err => []
  end.

(** The driver reports a constraint violation: an [sqlite3.Error] whose
    code is [ErrConstraint]; and one at the primary key, by its extended
    code. *)
Definition constraint_violation (e : error) : bool :=
  match e with
  | Sqlite3Error Code _ => Code =? ErrConstraint
  | _ => false
  end.

Definition pk_violation (e : error) : bool :=
  match e with
  | Sqlite3Error Code ExtendedCode =>
      (Code =? ErrConstraint) && (ExtendedCode =? ErrConstraintPrimaryKey)
  | _ => false
  end.

(** The model as [SetPk] leaves it at the start of an operation. *)
Definition after_SetPk {lib : GoLib} (model : Model) : Model :=
  with_record model (fst (fst (SetPk (record model) (fields_of model)))).

(** A record with an integer primary key. *)
Definition numbered (id : Z) (name : string) : GoValue :=
  VStruct
    (MCons "ID" (Some "pk") true (VInt TInt id)
    (MCons "Name" (Some "") true (VString name) MNil)).

(** Drivers over a database that counts its calls.  [accepting] accepts
    every statement (one row affected) and scans rows without a change;
    [no_rows] accepts every statement with no row affected;
    [unique_then_ok] reports a violation of a UNIQUE constraint on the
    first call and accepts the following ones. *)
Definition accepting : Table nat :=
  mkTable
    (mkDBTX (fun c _ _ => (S c, Ok (mkResult (1, None))))
            (fun c _ _ => (S c, fun dests => (dests, None)))).

Definition no_rows : Table nat :=
  mkTable
    (mkDBTX (fun c _ _ => (S c, Ok (mkResult (0, None))))
            (fun c _ _ => (S c, fun dests => (dests, Some NotFound)))).

Definition unique_then_ok : Table nat :=
  mkTable
    (mkDBTX (fun c _ _ =>
               match c with
               | O => (S c, Err (Sqlite3Error ErrConstraint ErrConstraintUnique))
               | S _ => (S c, Ok (mkResult (1, None)))
               end)
            (fun c _ _ => (S c, fun dests => (dests, None)))).

(** Sample models: scenario S1 with its key preset, and a record with an
    integer primary key that is not set. *)
Definition a_thing : Model :=
  Pointer "Thing" (Some (thing "k" "a" "b" 1 "x")).

Definition a_numbered : Model :=
  Pointer "Numbered" (Some (numbered 0 "a")).

(** What a pulled key field writes to the hash of [SetPk]. *)
Definition key_bytes (h : GoValue) (f : Field) : list Z :=
  match FieldKind h f with
  | reflect.String => bytes_of_string (f_string f)
  | reflect.Bool | reflect.Int | reflect.Int8 | reflect.Int16
  | reflect.Int32 | reflect.Int64 => binary.BigEndian_int64 (f_int f)
  | _ => []
  end.

(** The same, read from the live value of the key: the bytes of a string,
    the eight big-endian bytes of an integer, of [1] for [true] and of [0]
    for [false]; nothing for an encoded cell. *)
Definition value_bytes (v : option GoValue) : list Z :=
  match v with
  | Some (VString s) => bytes_of_string s
  | Some (VBool b) => binary.BigEndian_int64 (if b then 1 else 0)
  | Some (VInt t n) => binary.BigEndian_int64 (wrap (bits t) n)
  | _ => []
  end.

(** The primary key synthesised from the values of the key fields. *)
Definition synthesized_pk (keys : list (option GoValue)) : string :=
  hex.EncodeToString (sha1.Sum (flat_map value_bytes keys)).

(** The values of the key fields of a record, in declaration order. *)
Definition key_values (h : GoValue) (fields : list Field)
  : list (option GoValue) :=
  map (cell h) (KeyFields fields).

(** Scenario S1 before its key is set. *)
Definition new_thing : Model :=
  Pointer "Thing" (Some (thing "" "a" "k" 1 "x")).

(** The UNIQUE clauses of a table, in the order the map is ranged over. *)
Definition unique_clauses (range : MapOrder) (fields : list Field)
  : list string :=
  map unique_clause (range (unique_groups fields)).

(** A record type with two unique groups and a foreign key. *)
Definition a_pair : Model :=
  Pointer "Pair"
    (Some (VStruct
       (MCons "ID" (Some "pk") true (VString "")
       (MCons "A" (Some "unique(g1)") true (VString "")
       (MCons "B" (Some "unique(g2)") true (VInt TInt64 0)
       (MCons "C" (Some "unique(g1), fk:Other(ID)") true (VString "") MNil)))))).

(** Two orders a [range] may take: the order of insertion and its
    reverse. *)
Definition in_order : MapOrder := fun m => m.
Definition reversed : MapOrder := fun m => rev m.

(** ** Detail levels and the fields of a listing *)

(** Get whether the field is [json] encoded. *)
Definition Encoded (h : GoValue) (f : Field) : bool :=
  match FieldKind h f with
  | reflect.Struct | reflect.Slice | reflect.Map => true
  | _ => false
  end.

(** [fmt.Sprintf("d%d", n)] for [n] below ten. *)
Definition detail_opt (n : nat) : string :=
  String "d"%char (String (ascii_of_nat (48 + n)) "").

(** Detail level. *)
Definition Detail (h : GoValue) (f : Field) : Z :=
  match find (fun n => hasOpt f (detail_opt n)) (seq 0 10) with
  | Some n => Z.of_nat n
  | None =>
      let level := 2 in
      let level := if Pk f || Key f || Virtual f then 0 else level in
      let level := if Encoded h f then 3 else level in
      level
  end.

(** Match detail level. *)
Definition MatchDetail (h : GoValue) (f : Field) (level : Z) : bool :=
  if level =? 1 then true else Detail h f <=? level.

(** [ListOptions.Fields]: the fields of the options filtered by the detail
    level of the options. *)
Definition ListOptions_Fields (h : GoValue) (fields : list Field) (level : Z)
  : list Field :=
  filter (fun f => MatchDetail h f level) fields.

(** ** More of the client *)

(** The connection a table is given by the client: the database handle
    (which is nil on a client that is not open) or the transaction. *)
Inductive Handle : Type :=
| OnDB (d : option Addr)
| OnTx (p : Addr).

Definition Pragma : string := "PRAGMA foreign_keys = ON".

Definition set_db (r : Client) (d : option Addr) : Client :=
  mkClient (Mutex r) (mutex r) (path r) (models r) d (tx r).

Definition set_models (r : Client) (ms : list Model) : Client :=
  mkClient (Mutex r) (mutex r) (path r) ms (db r) (tx r).

Section WithStore.

Context {lib : GoLib}.

(** The database and the file system behind the client; the driver that
    serves a handle; [SetPk] of the interface [Model] and the model
    [Label], both declared elsewhere in the package. *)
Variable World : Type.
Variable driver : Handle -> DBTX World.
Variable Model_SetPk : Model -> Model.
Variable Label : Model.
Variable os_Remove : string -> World -> World.
Variable sql_Open : string -> World -> World * result Addr.
Variable sql_DB_Exec : Addr -> string -> World -> World * option error.
Variable sql_DB_Close : Addr -> World -> World * option error.

(** The DDL of the registered models, one after the other. *)
Fixpoint all_DDL (range : MapOrder) (ms : list Model) : result (list string) :=
  match ms with
  | [] => Ok []
  | m :: rest =>
      match DDL range m with
      | Err err => Err err
      | Ok ddl =>
          match all_DDL range rest with
          | Err err => Err err
          | Ok more => Ok (ddl ++ more)%list
          end
      end
  end.

(** The loop of [Open] over the statements: it stops at the first one the
    database refuses. *)
Fixpoint exec_all (d : Addr) (statements : list string) (w : World)
  : World * option error :=
  match statements with
  | [] => (w, None)
  | ddl :: rest =>
      match sql_DB_Exec d ddl w with
      | (w, Some err) => (w, Some err)
      | (w, None) => exec_all d rest w
      end
  end.

(** Create the database.  Build the schema to support the specified
    models.  Optionally [purge] (delete) the DB first.  An error of
    [sql.Open] or of [DDL] is a panic. *)
Definition Open (range : MapOrder) (r : Client) (purge : bool) (w : World)
  : Run (Client * World * option error) :=
  let w := if purge then os_Remove (path r) w else w in
  match sql_Open (path r) w with
  | (w, Err err) => Fatal "panic"
  | (w, Ok d) =>
      let r := set_models r (models r ++ [Label])%list in
      match all_DDL range (models r) with
      | Err err => Fatal "panic"
      | Ok ddl =>
          match exec_all d (Pragma :: ddl) w with
          | (w, Some err) =>
              let w := fst (sql_DB_Close d w) in
              Done (r, w, Some err)
          | (w, None) => Done (set_db r (Some d), w, None)
          end
      end
  end.

(** Close the database.  Optionally purge (delete) the DB. *)
Definition Close (r : Client) (purge : bool) (w : World)
  : Client * World * option error :=
  match db r with
  | None => (r, w, None)
  | Some d =>
      match sql_DB_Close d w with
      | (w, Some err) => (r, w, Some err)
      | (w, None) =>
          let r := set_db r None in
          let w := if purge then os_Remove (path r) w else w in
          (r, w, None)
      end
  end.

(** Get the model. *)
Definition Client_Get (r : Client) (model : Model) (w : World)
  : World * Model * option error :=
  Get (mkTable (driver (OnDB (db r)))) model w.

(** Insert the model.  The state lock is held for the call; the writer
    lock is taken, and released at the end, when no transaction is in
    flight. *)
Definition Client_Insert (r : Client) (model : Model) (w : World)
  : Run (Client * World * Model * option error) :=
  if Mutex r then Blocks
  else
    let r := set_Mutex r true in
    let model := Model_SetPk model in
    match tx r with
    | None =>
        if mutex r then Blocks
        else
          let r := set_mutex r true in
          let '(w, model, err) :=
            Insert (mkTable (driver (OnDB (db r)))) model w in
          Done (set_Mutex (set_mutex r false) false, w, model, err)
    | Some p =>
        let '(w, model, err) := Insert (mkTable (driver (OnTx p))) model w in
        Done (set_Mutex r false, w, model, err)
    end.

(** Update the model. *)
Definition Client_Update (r : Client) (model : Model) (w : World)
  : Run (Client * World * Model * option error) :=
  if Mutex r then Blocks
  else
    let r := set_Mutex r true in
    let model := Model_SetPk model in
    match tx r with
    | None =>
        if mutex r then Blocks
        else
          let r := set_mutex r true in
          let '(w, model, err) :=
            Update (mkTable (driver (OnDB (db r)))) model w in
          Done (set_Mutex (set_mutex r false) false, w, model, err)
    | Some p =>
        let '(w, model, err) := Update (mkTable (driver (OnTx p))) model w in
        Done (set_Mutex r false, w, model, err)
    end.

(** Delete the model. *)
Definition Client_Delete (r : Client) (model : Model) (w : World)
  : Run (Client * World * Model * option error) :=
  if Mutex r then Blocks
  else
    let r := set_Mutex r true in
    let model := Model_SetPk model in
    match tx r with
    | None =>
        if mutex r then Blocks
        else
          let r := set_mutex r true in
          let '(w, model, err) :=
            Delete (mkTable (driver (OnDB (db r)))) model w in
          Done (set_Mutex (set_mutex r false) false, w, model, err)
    | Some p =>
        let '(w, model, err) := Delete (mkTable (driver (OnTx p))) model w in
        Done (set_Mutex r false, w, model, err)
    end.

End WithStore.

(** ** Predicates of the further properties *)

(** A descriptor as [Fields] makes it: nothing staged, not a parameter. *)
Definition fresh (f : Field) : Prop :=
  f_string f = "" /\ f_int f = 0 /\ isParam f = false.

(** A cell of one of the kinds [Fields] gives a descriptor to. *)
Definition supported (v : GoValue) : bool :=
  match v with
  | VOther => false
  | _ => true
  end.

(** Two values of which [Fields] cannot tell one from the other: two
    structs with the same fields, or two values of the same kind. *)
Definition same_fields (v v' : GoValue) : Prop :=
  match v, v' with
  | VStruct a, VStruct b =>
      forall path i, struct_fields a path i = struct_fields b path i
  | VStruct _, _ | _, VStruct _ => False
  | _, _ => Kind v = Kind v'
  end.

(** A scalar cell that [Pull] followed by [Push] gives back: a string; an
    integer that fits its type; a boolean, with nothing stale staged when
    it is [false]. *)
Definition settled (h : GoValue) (f : Field) : Prop :=
  match cell h f with
  | Some (VString _) => True
  | Some (VInt t n) => wrap (bits t) n = n
  | Some (VBool b) => b = true \/ f_int f = 0
  | _ => False
  end.

Definition lower_hex (c : ascii) : bool :=
  let n := nat_of_ascii c in
  ((48 <=? n) && (n <=? 57) || (97 <=? n) && (n <=? 102))%nat.

(** The kinds a primary key may have for [Validate]. *)
Definition pk_kind (h : GoValue) (f : Field) : bool :=
  match FieldKind h f with
  | reflect.String | reflect.Int | reflect.Int8 | reflect.Int16
  | reflect.Int32 | reflect.Int64 => true
  | _ => false
  end.

(** A record without a pk field. *)
Definition keyless : Model :=
  Pointer "Note"
    (Some (VStruct (MCons "Text" (Some "") true (VString "hello") MNil))).

(** What [SetPk] never changes in a descriptor: its tag, its name and its
    parameter flag. *)
Definition label (f : Field) : string * string * bool :=
  (Tag f, Name f, isParam f).

(** The (group, field name) pairs a record declares with [unique(G)], in
    the order of the fields and of the options of a field. *)
Definition group_pairs (fields : list Field) : list (string * string) :=
  flat_map (fun f => map (fun g => (g, Name f)) (Unique f)) fields.

(** The field names declared for group [g], in that order. *)
Definition names_of (g : string) (ps : list (string * string)) : list string :=
  map snd (filter (fun p => String.eqb (fst p) g) ps).

(** The entry of a map for a key; the empty list when there is none. *)
Definition lookup (m : GoMap) (g : string) : list string :=
  match find (fun e => String.eqb (fst e) g) m with
  | Some e => snd e
  | None => []
  end.

(** Sample data of the further properties: an idle, open client; a
    database that begins transactions at address [7] and one that refuses;
    calls that count themselves; a driver for every handle. *)
Definition idle_client : Client :=
  mkClient false false "/tmp/db" [] (Some 1%nat) None.

Definition begins (d : Addr) (w : nat) : nat * result Addr :=
  (S w, Ok 7%nat).

Definition refuses (d : Addr) (w : nat) : nat * result Addr :=
  (S w, Err (ForeignError "database is locked")).

Definition completes (p : Addr) (w : nat) : nat * option error :=
  (S w, None).

Definition any_handle (hd : Handle) : DBTX nat := DB accepting.

Definition same_model (m : Model) : Model := m.

Definition opens (path : string) (w : nat) : nat * result Addr :=
  (S w, Ok 1%nat).

Definition executes (d : Addr) (ddl : string) (w : nat) : nat * option error :=
  (S w, None).

Definition removes (path : string) (w : nat) : nat := w.

(** The descriptor of the cell [V] of [single], with a tag. *)
Definition tagged (tag : string) : Field :=
  mkField [0%nat] tag "V" "" 0 false.

(** The kind of the pk is string. *)
Definition string_kind (k : reflect.Kind) : bool :=
  match k with
  | reflect.String => true
  | _ => false
  end.

(** * Sample evaluations of the library functions *)

Example UniqueRegex_a : regexp.FindStringSubmatch UniqueRegex "unique(a)"
                        = Some ["unique(a)"; "unique"; "("; "a"; ")"].
Proof. reflexivity. Qed.

Example UniqueRegex_greedy :
  regexp.FindStringSubmatch UniqueRegex "xunique(a)b)c"
  = Some ["unique(a)b)"; "unique"; "("; "a)b"; ")"].
Proof. reflexivity. Qed.

Example UniqueRegex_none : regexp.FindStringSubmatch UniqueRegex "unique()" = None.
Proof. reflexivity. Qed.

Example FkRegex_a : regexp.FindStringSubmatch FkRegex "fk:T(F)"
                    = Some ["fk:T(F)"; "fk"; "T"; "("; "F"; ")"].
Proof. reflexivity. Qed.

Example TrimSpace_a : strings.TrimSpace "  pk 	" = "pk".
Proof. reflexivity. Qed.

Example Split_a : strings.Split "pk,,key" = ["pk"; ""; "key"].
Proof. reflexivity. Qed.

Example sha1_abc :
  hex.EncodeToString (sha1.Sum (bytes_of_string "abc"))
  = "a9993e364706816aba3e25717850c26c9cd0d89d".
Proof. vm_compute. reflexivity. Qed.

Example sha1_empty :
  hex.EncodeToString (sha1.Sum sha1.New)
  = "da39a3ee5e6b4b0d3255bfef95601890afd80709".
Proof. vm_compute. reflexivity. Qed.

Example sha1_two_blocks :
  hex.EncodeToString
    (sha1.Sum (bytes_of_string
       "abcdbcdecdefdefgefghfghighijhijkijkljklmklmnlmnomnopnopq"))
  = "84983e441c3bd26ebaae4aa1f95129e5e54670f1".
Proof. vm_compute. reflexivity. Qed.

Example ParseInt_samples :
  map strconv.ParseInt ["42"; "-0x1F"; "0b101"; "017"; "1_000"; "0"; "+7";
                        "9223372036854775807"]
  = map (fun n => (n, None)) [42; -31; 5; 15; 1000; 0; 7; 2 ^ 63 - 1]
  /\ map strconv.ParseInt [""; "abc"; "12a"; "0x"; "_1"; "1__0"; "-"]
     = repeat (0, Some strconv.ErrSyntax) 7
  /\ map strconv.ParseInt ["9223372036854775808"; "-9223372036854775809";
                           "99999999999999999999999"]
     = map (fun n => (n, Some strconv.ErrRange)) [2 ^ 63 - 1; - 2 ^ 63; 2 ^ 63 - 1].
Proof. vm_compute. repeat split. Qed.

Example FormatInt_samples :
  strconv.FormatInt (-255) 16 = Returns "-ff"
  /\ strconv.FormatInt 0 10 = Returns "0"
  /\ strconv.FormatInt 1234 10 = Returns "1234".
Proof. vm_compute. repeat split. Qed.

(** * Properties *)

Unset Implicit Arguments.

(** ** The client: commit and rollback *)

Section ClientFacts.

Variable World : Type.
Variable sql_Tx_Commit : Addr -> World -> World * option error.
Variable sql_Tx_Rollback : Addr -> World -> World * option error.

Lemma same_addr_true (a b : option Addr) :
  same_addr a b = true <-> a = b.
Proof.
  destruct a as [x|], b as [y|]; simpl; split; intro E;
    try congruence; try discriminate.
  - apply Nat.eqb_eq in E. now subst.
  - inversion E. apply Nat.eqb_refl.
Qed.

Lemma not_current_cases (r : Client) (t : Tx) :
  ~ current r t ->
  tx r = None \/ exists p, tx r = Some p /\ same_addr (tx r) (ref t) = false.
Proof.
  intro N. destruct (tx r) as [p|] eqn:E; [right|now left].
  exists p. split; [reflexivity|].
  destruct (same_addr (Some p) (ref t)) eqn:S; [|reflexivity].
  apply same_addr_true in S. exfalso. apply N. exists p. now split.
Qed.

Lemma unlocked_client (r : Client) :
  Mutex r = false -> set_Mutex (set_Mutex r true) false = r.
Proof. destruct r; simpl; intros ->; reflexivity. Qed.

(** C8. With the state lock free: a token that does not reference the
    in-flight transaction makes [commit] and [rollback] return
    [TxInvalidError] and leave the client (and the database) as they were;
    a token that does, with the writer lock held as [Begin] left it, makes
    them release the writer lock and clear the transaction whatever the
    underlying call returns, and return that call's error. *)
Theorem commit_rollback_token (r : Client) (t : Tx) (w : World) :
  Mutex r = false ->
  (~ current r t ->
   commit sql_Tx_Commit r t w = Done (r, w, Some TxInvalidError)
   /\ rollback sql_Tx_Rollback r t w = Done (r, w, Some TxInvalidError))
  /\ (forall p, tx r = Some p -> ref t = Some p -> mutex r = true ->
      commit sql_Tx_Commit r t w
      = Done (mkClient false false (path r) (models r) (db r) None,
              fst (sql_Tx_Commit p w), snd (sql_Tx_Commit p w))
      /\ rollback sql_Tx_Rollback r t w
         = Done (mkClient false false (path r) (models r) (db r) None,
                 fst (sql_Tx_Rollback p w), snd (sql_Tx_Rollback p w))).
Proof.
  intro Free. split.
  - intro N. unfold commit, rollback. rewrite Free.
    destruct (not_current_cases r t N) as [E | [p [E S]]].
    + simpl. rewrite E. rewrite (unlocked_client r Free). now split.
    + simpl. rewrite E in *. rewrite S. simpl.
      rewrite (unlocked_client r Free). now split.
  - intros p E R Held. unfold commit, rollback. rewrite Free.
    simpl. rewrite E, R, Held.
    assert (S : same_addr (Some p) (Some p) = true) by now apply same_addr_true.
    rewrite S. simpl.
    destruct (sql_Tx_Commit p w) as [w1 e1].
    destruct (sql_Tx_Rollback p w) as [w2 e2].
    now split.
Qed.

(** What [Begin] leaves is what the second half of the theorem asks for:
    the token references the transaction, the writer lock is held and the
    state lock is free. *)
Lemma Begin_leaves_current (sql_DB_Begin : Addr -> World -> World * result Addr)
      (r r' : Client) (w w' : World) (t : Tx) :
  Begin sql_DB_Begin r w = Done (r', w', Ok t) ->
  current r' t /\ mutex r' = true /\ Mutex r' = false.
Proof.
  unfold Begin. destruct (Mutex r); [discriminate|]. simpl.
  destruct (mutex r); [discriminate|]. simpl.
  destruct (db r) as [d|]; [|discriminate].
  destruct (sql_DB_Begin d w) as [w1 [p|e]]; intro E; inversion E; subst.
  split; [|split; reflexivity]. exists p. split; reflexivity.
Qed.

End ClientFacts.

Lemma commit_rollback_token_witness :
  Mutex busy_client = false
  /\ ~ current busy_client (mkTx (Some 8%nat))
  /\ commit failing_commit busy_client (mkTx (Some 8%nat)) O
     = Done (busy_client, O, Some TxInvalidError)
  /\ current busy_client (mkTx (Some 7%nat))
  /\ mutex busy_client = true
  /\ commit failing_commit busy_client (mkTx (Some 7%nat)) O
     = Done (mkClient false false "/tmp/db" [] (Some 1%nat) None, 1%nat,
             Some (ForeignError "disk I/O error")).
Proof.
  pose proof (@commit_rollback_token nat failing_commit (fun _ w => (w, None)))
    as T.
  assert (N : ~ current busy_client (mkTx (Some 8%nat)))
    by (intros [p [E R]]; simpl in E, R; congruence).
  assert (C : current busy_client (mkTx (Some 7%nat)))
    by (exists 7%nat; split; reflexivity).
  split; [reflexivity|]. split; [exact N|]. split.
  - exact (proj1 (proj1 (T busy_client (mkTx (Some 8%nat)) O eq_refl) N)).
  - split; [exact C|]. split; [reflexivity|].
    exact (proj1 (proj2 (T busy_client (mkTx (Some 7%nat)) O eq_refl)
                        7%nat eq_refl eq_refl eq_refl)).
Defined.

(** ** Staging: Pull, Push and scan *)

Section FieldFacts.

Context {lib : GoLib}.

(** C4. On a boolean cell that holds [true], [Pull] stages [1] whatever
    the staging cell held.  On one that holds [false] it leaves the
    staging cell as it was: a descriptor that staged [1] before (here the
    cell [V] of a one-cell record) still stages [1], and [Pull] returns it,
    where the claim has [0]. *)
Theorem Pull_bool_false_keeps_staging (n : Z) (s : string) :
  Pull (single (VBool true)) (staged n s) = (staged 1 s, AInt64 1)
  /\ Pull (single (VBool false)) (staged n s) = (staged n s, AInt64 n)
  /\ Pull (single (VBool false)) (fst (Pull (single (VBool true)) (staged 0 "")))
     = (staged 1 "", AInt64 1).
Proof. repeat split. Qed.

(** C5. For an integer field and a string literal, [AsValue] returns the
    number [strconv.ParseInt] gave together with a nil error, also when the
    parse failed: for the literal ["abc"], which does not parse, the
    result is [(0, nil)], where the claim has a non-nil error. *)
Theorem AsValue_int_unparsable_no_error (t : IntType) (n : Z) (s : string) :
  AsValue (single (VInt t n)) (staged 0 "") (OValue (VString s))
  = Returns (AInt64 (fst (strconv.ParseInt s)), None)
  /\ strconv.ParseInt "abc" = (0, Some strconv.ErrSyntax)
  /\ AsValue (single (VInt t n)) (staged 0 "") (OValue (VString "abc"))
     = Returns (AInt64 0, None).
Proof.
  assert (G : forall s',
             AsValue (single (VInt t n)) (staged 0 "") (OValue (VString s'))
             = Returns (AInt64 (fst (strconv.ParseInt s')), None)).
  { intro s'. unfold AsValue. simpl literal.
    assert (K : FieldKind (single (VInt t n)) (staged 0 "") = Kind (VInt t n))
      by reflexivity.
    rewrite K. destruct t; simpl; destruct (strconv.ParseInt s'); reflexivity. }
  split; [apply G|]. split; [reflexivity|]. rewrite G. reflexivity.
Qed.

(** C6. For a string field and a signed integer literal, [AsValue] calls
    [strconv.FormatInt] with base [0], which is outside [2..36]: the call
    panics, and no decimal text is returned. *)
Theorem AsValue_string_int_literal_panics (t : IntType) (n : Z) (s : string) :
  AsValue (single (VString s)) (staged 0 "") (OValue (VInt t n))
  = Panics "strconv: illegal AppendInt/FormatInt base".
Proof. reflexivity. Qed.

(** The same for any string field and any integer literal. *)
Lemma string_field_int_literal (h : GoValue) (f : Field) (t : IntType) (n : Z) :
  FieldKind h f = reflect.String ->
  AsValue h f (OValue (VInt t n))
  = Panics "strconv: illegal AppendInt/FormatInt base".
Proof. intro K. unfold AsValue. simpl literal. rewrite K. reflexivity. Qed.

(** [Pull] on a [false] cell changes nothing, whatever the record. *)
Lemma Pull_false (h : GoValue) (f : Field) :
  cell h f = Some (VBool false) -> Pull h f = (f, AInt64 (f_int f)).
Proof. intro C. unfold Pull. rewrite C. reflexivity. Qed.

(** C10. [scan] pulls every field, hands the staging cells to the row's
    [Scan] and keeps what it stored there.  When [Scan] fails the record is
    returned as it was, so every live cell keeps its value, and the error
    comes back wrapped; when it succeeds the staged values are pushed, field
    by field, and no error is returned. *)
Theorem scan_pushes_only_on_success (h : GoValue) (row : Row) (fields : list Field) :
  let pulled := map (fun f => fst (Pull h f)) fields in
  let out := row (map (Ptr h) pulled) in
  let kept := store_all h pulled (fst out) in
  (forall e, snd out = Some e ->
     scan h row fields = (h, kept, Some (Wrap e))
     /\ forall f, cell (fst (fst (scan h row fields))) f = cell h f)
  /\ (snd out = None ->
      scan h row fields = (fold_left Push kept h, kept, None)).
Proof.
  intros pulled out kept. unfold scan.
  fold pulled. fold out. destruct out as [cells err] eqn:E.
  simpl in kept. fold kept. simpl snd. split.
  - intros e ->. simpl. split; reflexivity.
  - intros ->. reflexivity.
Qed.

End FieldFacts.

Lemma scan_pushes_only_on_success_witness :
  snd (broken_row
         (map (Ptr (record a_thing))
              (map (fun f => fst (@Pull noJSON (record a_thing) f))
                   (fields_of a_thing))))
  = Some (ForeignError "sql: Scan error")
  /\ fst (fst (@scan noJSON (record a_thing) broken_row (fields_of a_thing)))
     = record a_thing
  /\ snd (@scan noJSON (record a_thing) broken_row (fields_of a_thing))
     = Some (Wrapped (ForeignError "sql: Scan error")).
Proof.
  split; [reflexivity|].
  pose proof (proj1 (@scan_pushes_only_on_success noJSON (record a_thing)
                       broken_row (fields_of a_thing))
                    (ForeignError "sql: Scan error") eq_refl) as [E _].
  rewrite E. split; reflexivity.
Defined.

(** ** Table operations *)

Section TableFacts.

Context {lib : GoLib}.

(** The options of a field are read from its tag alone, and no step of an
    operation changes a tag. *)
Lemma Pk_Tag (f g : Field) : Tag f = Tag g -> Pk f = Pk g.
Proof. unfold Pk, hasOpt. now intros ->. Qed.

Lemma Key_Tag (f g : Field) : Tag f = Tag g -> Key f = Key g.
Proof. unfold Key, hasOpt. now intros ->. Qed.

Lemma Pull_Tag (h : GoValue) (f : Field) : Tag (fst (Pull h f)) = Tag f.
Proof.
  unfold Pull. destruct (cell h f) as [v|]; [|reflexivity].
  destruct v as [b|t n|s|ms|elems|entries|]; simpl; try reflexivity.
  - destruct b; reflexivity.
  - destruct (json_Marshal (VStruct ms)); reflexivity.
  - destruct elems; [destruct (json_Marshal _)|]; reflexivity.
  - destruct entries; [destruct (json_Marshal _)|]; reflexivity.
Qed.

Lemma PkField_tags (fs gs : list Field) :
  map Tag fs = map Tag gs -> PkField fs = None -> PkField gs = None.
Proof.
  revert gs. induction fs as [|f fs IH]; intros [|g gs] E; simpl in *;
    try discriminate; auto.
  inversion E as [[E1 E2]]. rewrite (Pk_Tag g f) by auto.
  destruct (Pk f); [discriminate|]. now apply IH.
Qed.

Lemma modify_first_tags (p : Field -> bool) (g : Field -> Field) (fs : list Field) :
  (forall f, Tag (g f) = Tag f) ->
  map Tag (modify_first p g fs) = map Tag fs.
Proof.
  intro G. induction fs as [|f fs IH]; simpl; [reflexivity|].
  destruct (p f); simpl; [now rewrite G | now rewrite IH].
Qed.

Lemma map_if_tags (p : Field -> bool) (g : Field -> Field) (fs : list Field) :
  (forall f, Tag (g f) = Tag f) ->
  map Tag (map (fun f => if p f then g f else f) fs) = map Tag fs.
Proof.
  intro G. induction fs as [|f fs IH]; simpl; [reflexivity|].
  rewrite IH. destruct (p f); [now rewrite G | reflexivity].
Qed.

Lemma hash_keys_tags (h : GoValue) (fs : list Field) (hash : sha1.Hash) :
  map Tag (fst (hash_keys h fs hash)) = map Tag fs.
Proof.
  revert hash. induction fs as [|f fs IH]; intro hash; simpl; [reflexivity|].
  destruct (Key f).
  - match goal with |- context [hash_keys h fs ?x] =>
      specialize (IH x); destruct (hash_keys h fs x) end.
    simpl in *. now rewrite IH, Pull_Tag.
  - specialize (IH hash). destruct (hash_keys h fs hash).
    simpl in *. now rewrite IH.
Qed.

Lemma SetPk_tags (h : GoValue) (fs : list Field) :
  map Tag (snd (fst (SetPk h fs))) = map Tag fs.
Proof.
  unfold SetPk. destruct (PkField fs) as [pk|]; [|reflexivity].
  assert (M : map Tag (modify_first Pk (fun f => fst (Pull h f)) fs) = map Tag fs)
    by (apply modify_first_tags; intro; apply Pull_Tag).
  destruct (FieldKind h pk); try reflexivity.
  destruct (negb _); [exact M|].
  pose proof (hash_keys_tags h (modify_first Pk (fun f => fst (Pull h f)) fs)
                             sha1.New) as T.
  destruct (hash_keys h _ sha1.New) as [ks hash]. simpl in T.
  assert (D : map Tag (modify_first Pk
                (fun f => set_string f (hex.EncodeToString (sha1.Sum hash))) ks)
              = map Tag fs).
  { rewrite modify_first_tags by reflexivity. now rewrite T. }
  destruct (PkField _); exact D.
Qed.

Lemma SetPk_keeps_pk (h : GoValue) (fs : list Field) :
  PkField fs <> None -> PkField (snd (fst (SetPk h fs))) <> None.
Proof.
  intros N E. apply N.
  apply (PkField_tags (snd (fst (SetPk h fs)))); [apply SetPk_tags | exact E].
Qed.

Lemma updateSQL_ok (table : string) (fs : list Field) :
  PkField fs <> None -> exists fs' stmt, updateSQL table fs = (fs', Ok stmt).
Proof.
  intro N. unfold updateSQL.
  destruct (PkField (map _ fs)) as [pk|] eqn:E; [eauto|].
  exfalso. apply N. revert E. apply PkField_tags.
  apply map_if_tags. reflexivity.
Qed.

Lemma deleteSQL_ok (table : string) (fs : list Field) :
  PkField fs <> None -> exists fs' stmt, deleteSQL table fs = (fs', Ok stmt).
Proof.
  intro N. unfold deleteSQL. destruct (PkField fs); [eauto | congruence].
Qed.

Variable Conn : Type.

(** C7. For a model with a pk field and a driver call that affects no row,
    [Update] returns [NotFound] (wrapped) and [Delete] returns no error. *)
Theorem zero_rows_Update_NotFound_Delete_ok
        (t : Table Conn) (model : Model) (c : Conn) (fields : list Field) :
  Fields model = Ok fields ->
  PkField fields <> None ->
  (forall stmt args,
      exists c', Exec (DB t) c stmt args = (c', Ok (mkResult (0, None)))) ->
  snd (Update t model c) = Some (Wrap NotFound)
  /\ snd (Delete t model c) = None.
Proof.
  intros F P Z. unfold Update, Delete. rewrite F.
  pose proof (SetPk_keeps_pk (record model) fields P) as P'.
  destruct (SetPk (record model) fields) as [[h fs] e]. simpl in P'.
  split.
  - destruct (updateSQL_ok (Table_Name (with_record model h)) fs P')
      as [fs' [stmt ->]].
    destruct (Params h fs') as [fs'' params].
    destruct (Z stmt params) as [c' ->]. reflexivity.
  - destruct (deleteSQL_ok (Table_Name (with_record model h)) fs P')
      as [fs' [stmt ->]].
    destruct (Params h fs') as [fs'' params].
    destruct (Z stmt params) as [c' ->]. reflexivity.
Qed.

(** C2, as the code has it. When the driver call of [Insert] fails with a
    constraint violation (an [sqlite3.Error] whose code is
    [ErrConstraint], at the primary key or at any other constraint), [Insert]
    is [Update] on the same model, as [SetPk] left it, from the database
    the failed call left; any other driver error is returned wrapped. *)
Theorem Insert_constraint_violation_is_Update
        (t : Table Conn) (model : Model) (c c' : Conn) (fields : list Field)
        (e : error) :
  Fields model = Ok fields ->
  (forall stmt args, Exec (DB t) c stmt args = (c', Err e)) ->
  Insert t model c
  = if constraint_violation e then Update t (after_SetPk model) c'
    else (c', after_SetPk model, Some (Wrap e)).
Proof.
  intros F X. unfold Insert, after_SetPk, fields_of. rewrite F.
  destruct (SetPk (record model) fields) as [[h fs] e0]. simpl fst.
  unfold insertSQL.
  destruct (Params h _) as [fs'' params]. rewrite X.
  destruct e; reflexivity.
Qed.

End TableFacts.

Lemma zero_rows_Update_NotFound_Delete_ok_witness :
  Fields a_thing = Ok (fields_of a_thing)
  /\ PkField (fields_of a_thing) <> None
  /\ snd (@Update noJSON nat no_rows a_thing O) = Some (Wrapped NotFound)
  /\ snd (@Delete noJSON nat no_rows a_thing O) = None.
Proof.
  assert (P : PkField (fields_of a_thing) <> None)
    by (vm_compute; discriminate).
  split; [reflexivity|]. split; [exact P|].
  apply (@zero_rows_Update_NotFound_Delete_ok noJSON nat no_rows a_thing O
           (fields_of a_thing) eq_refl P).
  intros stmt args. exists 1%nat. reflexivity.
Defined.

Lemma Insert_constraint_violation_is_Update_witness :
  Fields a_thing = Ok (fields_of a_thing)
  /\ @Insert noJSON nat unique_then_ok a_thing O
     = @Update noJSON nat unique_then_ok (@after_SetPk noJSON a_thing) 1%nat.
Proof.
  split; [reflexivity|].
  apply (@Insert_constraint_violation_is_Update noJSON nat unique_then_ok
           a_thing O 1%nat (fields_of a_thing)
           (Sqlite3Error ErrConstraint ErrConstraintUnique) eq_refl).
  intros stmt args. reflexivity.
Defined.

(** C2, as the claim states it, fails: a violation of a UNIQUE constraint
    is a driver error other than a violation at the primary key, and
    [Insert] does not return it; it updates instead and here succeeds. *)
Lemma Insert_unique_violation_is_recovered :
  pk_violation (Sqlite3Error ErrConstraint ErrConstraintUnique) = false
  /\ (forall stmt args,
         Exec (DB unique_then_ok) O stmt args
         = (1%nat, Err (Sqlite3Error ErrConstraint ErrConstraintUnique)))
  /\ snd (@Insert noJSON nat unique_then_ok a_thing O)
     <> Some (Wrap (Sqlite3Error ErrConstraint ErrConstraintUnique))
  /\ @Insert noJSON nat unique_then_ok a_thing O = (2%nat, a_thing, None).
Proof.
  split; [reflexivity|]. split; [reflexivity|].
  split; [vm_compute; discriminate | vm_compute; reflexivity].
Qed.

(** [SetPk] on a pk that is not a string: nothing is stored, and the error
    is [GenPkTypeErr]. *)
Lemma SetPk_not_string {lib : GoLib} (h : GoValue) (fields : list Field)
      (pk : Field) :
  PkField fields = Some pk ->
  FieldKind h pk <> reflect.String ->
  SetPk h fields = (h, fields, Some (Wrapped GenPkTypeErr)).
Proof.
  intros P K. unfold SetPk. rewrite P.
  destruct (FieldKind h pk); try reflexivity. congruence.
Qed.

(** C9. A record whose pk is an integer: [SetPk] returns [GenPkTypeErr],
    and each of the four operations drops that result and goes on to the
    driver; with a driver that accepts the statement they return no
    error. *)
Theorem GenPkTypeErr_is_dropped (lib : GoLib) :
  snd (SetPk (record a_numbered) (fields_of a_numbered))
  = Some (Wrapped GenPkTypeErr)
  /\ snd (Insert accepting a_numbered O) = None
  /\ snd (Update accepting a_numbered O) = None
  /\ snd (Delete accepting a_numbered O) = None
  /\ snd (Get accepting a_numbered O) = None.
Proof. repeat split. Qed.

(** ** Primary key synthesis *)

Section SetPkFacts.

Context {lib : GoLib}.

Lemma member_set_member (ms : Members) (i : nat) (g : GoValue -> GoValue) :
  member (set_member ms i g) i = option_map g (member ms i).
Proof.
  revert i. induction ms as [|n t c v r IH]; intros [|i]; simpl; auto.
Qed.

Lemma deref_assign (p : Ref) :
  forall h v x, deref h p = Some v -> deref (assign p x h) p = Some x.
Proof.
  induction p as [|i p IH]; intros h v x D; simpl in *; [reflexivity|].
  destruct h; try discriminate.
  destruct (member ms i) as [u|] eqn:M; try discriminate.
  simpl. rewrite member_set_member, M. simpl. now apply (IH u v).
Qed.

Ltac pull_cases h f :=
  unfold Pull;
  destruct (cell h f) as [[b|t n|s|ms|[elems|]|[entries|]|]|] eqn:?;
  simpl; try reflexivity;
  try (destruct b; reflexivity);
  try (destruct (json_Marshal _); reflexivity).

Lemma Pull_Value (h : GoValue) (f : Field) : Value (fst (Pull h f)) = Value f.
Proof. pull_cases h f. Qed.

Lemma Pull_cell (h : GoValue) (f : Field) : cell h (fst (Pull h f)) = cell h f.
Proof. unfold cell. now rewrite Pull_Value. Qed.

Lemma Pull_Kind (h : GoValue) (f : Field) :
  FieldKind h (fst (Pull h f)) = FieldKind h f.
Proof. unfold FieldKind. now rewrite Pull_cell. Qed.

Lemma Pull_idem (h : GoValue) (f : Field) :
  fst (Pull h (fst (Pull h f))) = fst (Pull h f).
Proof.
  pose proof (Pull_cell h f) as C. revert C.
  unfold Pull at 1 3 4.
  destruct (cell h f) as [[b|t n|s|ms|[elems|]|[entries|]|]|] eqn:E;
    simpl; intro C; unfold Pull; rewrite C; simpl; try reflexivity.
  - destruct b; reflexivity.
  - destruct (json_Marshal _); reflexivity.
  - destruct (json_Marshal _); reflexivity.
  - destruct (json_Marshal _); reflexivity.
Qed.

(** A pulled key of a fresh descriptor stages its live value. *)
Lemma key_bytes_value (h : GoValue) (f : Field) :
  f_int f = 0 -> key_bytes h (fst (Pull h f)) = value_bytes (cell h f).
Proof.
  intro Z0. unfold key_bytes. rewrite Pull_Kind. unfold FieldKind.
  unfold Pull.
  destruct (cell h f) as [[b|t n|s|ms|[elems|]|[entries|]|]|] eqn:E;
    simpl; try reflexivity.
  - destruct b; simpl; [reflexivity | now rewrite Z0].
  - destruct t; reflexivity.
Qed.

Lemma hash_keys_fst (h : GoValue) (fs : list Field) (hash : sha1.Hash) :
  fst (hash_keys h fs hash)
  = map (fun f => if Key f then fst (Pull h f) else f) fs.
Proof.
  revert hash. induction fs as [|f fs IH]; intro hash; simpl; [reflexivity|].
  destruct (Key f).
  - match goal with |- context [hash_keys h fs ?x] =>
      specialize (IH x); destruct (hash_keys h fs x) end.
    simpl in *. now rewrite IH.
  - specialize (IH hash). destruct (hash_keys h fs hash).
    simpl in *. now rewrite IH.
Qed.

Lemma hash_keys_snd (h : GoValue) (fs : list Field) (hash : sha1.Hash) :
  snd (hash_keys h fs hash)
  = (hash ++ flat_map (fun f => key_bytes h (fst (Pull h f))) (KeyFields fs))%list.
Proof.
  revert hash. induction fs as [|f fs IH]; intro hash; simpl.
  - now rewrite app_nil_r.
  - destruct (Key f) eqn:K.
    + match goal with |- context [hash_keys h fs ?x] =>
        specialize (IH x); destruct (hash_keys h fs x) end.
      simpl in *. rewrite IH. unfold key_bytes, sha1.Write.
      destruct (FieldKind h (fst (Pull h f)));
        now rewrite <- ?app_assoc, ?app_nil_r.
    + specialize (IH hash). destruct (hash_keys h fs hash).
      simpl in *. now rewrite IH.
Qed.

Lemma PkField_modify_first (g : Field -> Field) (fs : list Field) (pk : Field) :
  PkField fs = Some pk -> PkField (modify_first Pk g fs) = Some (g pk)
  \/ Pk (g pk) = false.
Proof.
  intro F. destruct (Pk (g pk)) eqn:G; [|now right]. left.
  induction fs as [|f fs IH]; simpl in *; [discriminate|].
  destruct (Pk f) eqn:P.
  - inversion F; subst. simpl. now rewrite G.
  - simpl. rewrite P. now apply IH.
Qed.

Lemma PkField_Pk (fs : list Field) (pk : Field) :
  PkField fs = Some pk -> Pk pk = true.
Proof. intro F. now apply find_some in F. Qed.

Lemma PkField_map (k : Field -> Field) (fs : list Field) :
  (forall f, Pk (k f) = Pk f) ->
  PkField (map k fs) = option_map k (PkField fs).
Proof.
  intro K. induction fs as [|f fs IH]; simpl; [reflexivity|].
  rewrite K. destruct (Pk f); [reflexivity | exact IH].
Qed.

Lemma keys_modify_first (F : Field -> list Z) (p : Field -> bool)
      (g : Field -> Field) (fs : list Field) :
  (forall f, Key (g f) = Key f) -> (forall f, F (g f) = F f) ->
  flat_map F (KeyFields (modify_first p g fs)) = flat_map F (KeyFields fs).
Proof.
  intros K E. induction fs as [|f fs IH]; simpl; [reflexivity|].
  destruct (p f); simpl.
  - rewrite K. destruct (Key f); simpl; [now rewrite E | reflexivity].
  - destruct (Key f); simpl; now rewrite IH.
Qed.

(** [SetPk] on a string pk that is empty: the only store into the record
    is the digest of what the pulled key fields staged, into the pk cell. *)
Lemma SetPk_digest (h : GoValue) (fields : list Field) (pk : Field) :
  PkField fields = Some pk ->
  cell h pk = Some (VString "") ->
  let digest :=
    hex.EncodeToString
      (sha1.Sum (flat_map (fun f => key_bytes h (fst (Pull h f)))
                          (KeyFields fields))) in
  fst (fst (SetPk h fields)) = assign (Value pk) (VString digest) h
  /\ snd (SetPk h fields) = None.
Proof.
  intros F C digest. unfold SetPk. rewrite F.
  assert (K : FieldKind h pk = reflect.String) by (unfold FieldKind; now rewrite C).
  rewrite K.
  assert (S0 : f_string (fst (Pull h pk)) = "") by (unfold Pull; now rewrite C).
  rewrite S0. simpl negb. cbv iota.
  set (P := fun f => fst (Pull h f)).
  set (fields1 := modify_first Pk P fields).
  pose proof (hash_keys_fst h fields1 sha1.New) as H1.
  pose proof (hash_keys_snd h fields1 sha1.New) as H2.
  destruct (hash_keys h fields1 sha1.New) as [fields2 hash].
  simpl in H1, H2.
  assert (D : hex.EncodeToString (sha1.Sum hash) = digest).
  { unfold digest. rewrite H2. unfold sha1.New. simpl app.
    unfold fields1. f_equal. f_equal.
    apply (keys_modify_first (fun f => key_bytes h (fst (Pull h f)))).
    - intro f. apply Key_Tag, Pull_Tag.
    - intro f. unfold P. now rewrite Pull_idem. }
  rewrite D.
  set (k := fun f => if Key f then fst (Pull h f) else f) in H1.
  assert (Pk1 : PkField fields1 = Some (P pk)).
  { destruct (PkField_modify_first P fields pk F) as [E|E]; [exact E|].
    unfold P in E. rewrite (Pk_Tag _ pk (Pull_Tag h pk)) in E.
    rewrite (PkField_Pk fields pk F) in E. discriminate. }
  assert (Pk2 : PkField fields2 = Some (k (P pk))).
  { rewrite H1, PkField_map, Pk1; [reflexivity|].
    intro f. unfold k. destruct (Key f); [|reflexivity].
    apply Pk_Tag, Pull_Tag. }
  destruct (PkField_modify_first (fun f => set_string f digest) fields2 _ Pk2)
    as [E|E].
  - rewrite E. simpl. split; [|reflexivity].
    assert (V : Value (k (P pk)) = Value pk).
    { unfold k, P. destruct (Key _); now rewrite ?Pull_Value. }
    unfold Push, cell. simpl Value. rewrite V.
    unfold cell in C. rewrite C. reflexivity.
  - exfalso.
    assert (T : Tag (set_string (k (P pk)) digest) = Tag pk).
    { simpl. unfold k, P. destruct (Key _); now rewrite ?Pull_Tag. }
    rewrite (Pk_Tag _ pk T), (PkField_Pk fields pk F) in E. discriminate.
Qed.

#[warnings="-register-all"]
Scheme GoValue_ind2 := Induction for GoValue Sort Prop
  with Members_ind2 := Induction for Members Sort Prop.

(** The descriptors [Fields] derives are fresh: both staging cells hold
    the zero value. *)
Lemma struct_fields_fresh (ms : Members) :
  forall path i, Forall (fun f => f_int f = 0) (struct_fields ms path i).
Proof.
  induction ms as [| | | ms IH | | | | | name tag canSet v IHv rest IHrest]
    using Members_ind2
    with (P := fun v => match v with
                        | VStruct ms =>
                            forall path i,
                              Forall (fun f => f_int f = 0)
                                     (struct_fields ms path i)
                        | _ => True
                        end);
    try exact I; try exact IH.
  - intros path i. constructor.
  - intros path i. simpl. apply Forall_app. split; [|apply IHrest].
    destruct canSet; [|constructor].
    destruct v; destruct tag; simpl;
      try (constructor; [reflexivity | constructor]); try constructor.
    apply IHv.
Qed.

Lemma Fields_fresh (model : Model) (fields : list Field) :
  Fields model = Ok fields -> Forall (fun f => f_int f = 0) fields.
Proof.
  destruct model as [n [[| | |ms| | |]|]|n v]; simpl; try discriminate.
  intro E. inversion E. apply struct_fields_fresh.
Qed.

Lemma fresh_keys (h : GoValue) (fields : list Field) :
  Forall (fun f => f_int f = 0) fields ->
  flat_map (fun f => key_bytes h (fst (Pull h f))) (KeyFields fields)
  = flat_map value_bytes (key_values h fields).
Proof.
  unfold key_values, KeyFields.
  induction 1 as [|f fs Z0 _ IH]; simpl; [reflexivity|].
  destruct (Key f); simpl; [|exact IH].
  now rewrite IH, key_bytes_value.
Qed.

(** C1. For a record whose pk field is a string and empty, [SetPk] stores
    into the pk cell, and nowhere else, the lowercase hexadecimal SHA-1
    digest of the key fields taken in declaration order: the bytes of a
    string key, the eight big-endian bytes of the 64-bit value an integer
    or boolean key staged.  No error is returned, and a second record with
    the same key values gets the same pk. *)
Theorem SetPk_sha1_of_key_values
        (model : Model) (fields : list Field) (pk : Field) :
  Fields model = Ok fields ->
  PkField fields = Some pk ->
  cell (record model) pk = Some (VString "") ->
  let h := record model in
  let h' := fst (fst (SetPk h fields)) in
  h' = assign (Value pk) (VString (synthesized_pk (key_values h fields))) h
  /\ cell h' pk = Some (VString (synthesized_pk (key_values h fields)))
  /\ snd (SetPk h fields) = None
  /\ Forall (fun f => value_bytes (cell h f) = key_bytes h (fst (Pull h f)))
            (KeyFields fields)
  /\ forall model2 fields2 pk2,
      Fields model2 = Ok fields2 ->
      PkField fields2 = Some pk2 ->
      cell (record model2) pk2 = Some (VString "") ->
      key_values (record model2) fields2 = key_values h fields ->
      cell (fst (fst (SetPk (record model2) fields2))) pk2 = cell h' pk.
Proof.
  intros F P C h h'.
  assert (G : forall m fs p,
             Fields m = Ok fs -> PkField fs = Some p ->
             cell (record m) p = Some (VString "") ->
             fst (fst (SetPk (record m) fs))
             = assign (Value p)
                      (VString (synthesized_pk (key_values (record m) fs)))
                      (record m)
             /\ snd (SetPk (record m) fs) = None).
  { intros m fs p Fm Pm Cm.
    destruct (SetPk_digest (record m) fs p Pm Cm) as [E1 E2].
    rewrite fresh_keys in E1 by (eapply Fields_fresh; eauto).
    now split. }
  assert (D : forall m fs p,
             Fields m = Ok fs -> PkField fs = Some p ->
             cell (record m) p = Some (VString "") ->
             cell (fst (fst (SetPk (record m) fs))) p
             = Some (VString (synthesized_pk (key_values (record m) fs)))).
  { intros m fs p Fm Pm Cm. destruct (G m fs p Fm Pm Cm) as [-> _].
    unfold cell in *. eapply deref_assign; eauto. }
  destruct (G model fields pk F P C) as [E1 E2].
  split; [exact E1|]. split; [exact (D model fields pk F P C)|].
  split; [exact E2|]. split.
  - pose proof (Fields_fresh model fields F) as Fr.
    unfold KeyFields. apply Forall_forall. intros f I.
    apply filter_In in I. destruct I as [I _].
    rewrite Forall_forall in Fr. symmetry. apply key_bytes_value. now apply Fr.
  - intros m2 fs2 p2 F2 P2 C2 KV.
    rewrite (D m2 fs2 p2 F2 P2 C2). unfold h', h.
    rewrite (D model fields pk F P C). now rewrite KV.
Qed.

End SetPkFacts.

Lemma SetPk_sha1_of_key_values_witness :
  Fields new_thing = Ok (fields_of new_thing)
  /\ PkField (fields_of new_thing)
     = Some (mkField [0%nat] "pk" "ID" "" 0 false)
  /\ key_values (record new_thing) (fields_of new_thing)
     = [Some (VString "a"); Some (VString "k")]
  /\ hex.EncodeToString (sha1.Sum (bytes_of_string "ak"))
     = "0474aee45985f5ae829f53849df476200e876990"
  /\ fst (fst (@SetPk noJSON (record new_thing) (fields_of new_thing)))
     = thing "0474aee45985f5ae829f53849df476200e876990" "a" "k" 1 "x".
Proof.
  split; [reflexivity|]. split; [reflexivity|]. split; [reflexivity|].
  split; [vm_compute; reflexivity|].
  rewrite (proj1 (@SetPk_sha1_of_key_values noJSON new_thing
                    (fields_of new_thing)
                    (mkField [0%nat] "pk" "ID" "" 0 false)
                    eq_refl eq_refl eq_refl)).
  vm_compute. reflexivity.
Defined.

(** ** DDL *)

Lemma short_range (range : MapOrder) (m : GoMap) :
  valid_order range -> (List.length m <= 1)%nat -> range m = m.
Proof.
  intros V L. specialize (V m).
  destruct m as [|x [|y m]]; simpl in L; try lia.
  - apply Permutation_sym in V. now apply Permutation_nil in V.
  - apply Permutation_sym in V. now apply Permutation_length_1_inv in V.
Qed.

(** C3, as the code has it. Two invocations of [DDL] on a record type,
    whatever the orders in which they range over the map of unique groups:
    both fail with the same error, or both give the same statements but
    for the UNIQUE clauses of CREATE TABLE, which are the same clauses in
    possibly different orders, before the same FOREIGN KEY clauses.  With at
    most one unique group the two outputs are equal. *)
Theorem DDL_equal_up_to_unique_order (model : Model) (range1 range2 : MapOrder) :
  valid_order range1 -> valid_order range2 ->
  let fields := fields_of model in
  Permutation (unique_clauses range1 fields) (unique_clauses range2 fields)
  /\ ((List.length (unique_groups fields) <= 1)%nat ->
      DDL range1 model = DDL range2 model)
  /\ ((exists e, DDL range1 model = Err e /\ DDL range2 model = Err e)
      \/ (exists columns rest,
             DDL range1 model
             = Ok (TableDDL (Table_Name model) columns
                            (unique_clauses range1 fields ++ fk_clauses fields)
                     :: rest)
             /\ DDL range2 model
                = Ok (TableDDL (Table_Name model) columns
                               (unique_clauses range2 fields ++ fk_clauses fields)
                        :: rest))).
Proof.
  intros V1 V2 fields. split; [|split].
  - unfold unique_clauses. apply Permutation_map.
    eapply Permutation_trans; [apply V1 | apply Permutation_sym, V2].
  - intro L. unfold DDL, Constraints.
    destruct (Fields model) as [fs|e] eqn:F; [|reflexivity].
    assert (E : fields = fs) by (unfold fields, fields_of; now rewrite F).
    rewrite <- E, (short_range range1 _ V1 L), (short_range range2 _ V2 L).
    reflexivity.
  - unfold DDL. destruct (Fields model) as [fs|e] eqn:F.
    + assert (E : fields = fs) by (unfold fields, fields_of; now rewrite F).
      rewrite <- E.
      destruct (Validate (record model) fields) as [e|]; [left; eauto|].
      right. unfold Constraints. fold (unique_clauses range1 fields).
      fold (unique_clauses range2 fields).
      destruct (Nat.ltb 0 (List.length (KeyFields fields))); eauto.
    + left. eauto.
Qed.

Lemma valid_in_order : valid_order in_order.
Proof. intro m. apply Permutation_refl. Qed.

Lemma valid_reversed : valid_order reversed.
Proof. intro m. apply Permutation_sym, Permutation_rev. Qed.

Lemma DDL_equal_up_to_unique_order_witness :
  valid_order in_order /\ valid_order reversed
  /\ Permutation (unique_clauses in_order (fields_of a_pair))
                 (unique_clauses reversed (fields_of a_pair))
  /\ unique_clauses in_order (fields_of a_pair)
     = ["UNIQUE (A,C)"; "UNIQUE (B)"]
  /\ fk_clauses (fields_of a_pair)
     = ["FOREIGN KEY (C) REFERENCES Other (ID) ON DELETE CASCADE"].
Proof.
  split; [exact valid_in_order|]. split; [exact valid_reversed|].
  split; [|split; reflexivity].
  exact (proj1 (DDL_equal_up_to_unique_order a_pair in_order reversed
                  valid_in_order valid_reversed)).
Defined.

(** C3, as the claim states it, fails: with two unique groups, the two
    orders of the map give CREATE TABLE statements that differ. *)
Lemma DDL_depends_on_map_order :
  valid_order in_order /\ valid_order reversed
  /\ DDL in_order a_pair <> DDL reversed a_pair.
Proof.
  split; [exact valid_in_order|]. split; [exact valid_reversed|].
  vm_compute. discriminate.
Qed.

Example DDL_of_a_pair :
  DDL in_order a_pair
  = Ok [ LF ++ "CREATE TABLE IF NOT EXISTS Pair (" ++ LF
            ++ "ID TEXT PRIMARY KEY" ++ LF
            ++ ",A TEXT NOT NULL" ++ LF
            ++ ",B INTEGER NOT NULL" ++ LF
            ++ ",C TEXT NOT NULL" ++ LF
            ++ ",UNIQUE (A,C)" ++ LF
            ++ ",UNIQUE (B)" ++ LF
            ++ ",FOREIGN KEY (C) REFERENCES Other (ID) ON DELETE CASCADE" ++ LF
            ++ ");" ++ LF ].
Proof. vm_compute. reflexivity. Qed.

Example DDL_of_a_thing :
  DDL in_order a_thing
  = Ok [ LF ++ "CREATE TABLE IF NOT EXISTS Thing (" ++ LF
            ++ "ID TEXT PRIMARY KEY" ++ LF
            ++ ",Name TEXT NOT NULL" ++ LF
            ++ ",Kind TEXT NOT NULL" ++ LF
            ++ ",Count INTEGER NOT NULL" ++ LF
            ++ ",Data TEXT NOT NULL" ++ LF
            ++ ");" ++ LF;
         LF ++ "CREATE INDEX IF NOT EXISTS ThingIndex" ++ LF
            ++ "ON Thing" ++ LF ++ "(" ++ LF
            ++ "Name" ++ LF ++ ",Kind" ++ LF ++ ");" ++ LF ].
Proof. vm_compute. reflexivity. Qed.

(** ** Scenarios *)

(** S1: the record is inserted under the digest of ["a"] followed by
    ["k"]. *)
Example S1_Insert :
  @Insert noJSON nat accepting new_thing O
  = (1%nat,
     Pointer "Thing"
       (Some (thing "0474aee45985f5ae829f53849df476200e876990" "a" "k" 1 "x")),
     None).
Proof. vm_compute. reflexivity. Qed.

(** A [Get] whose row reports that there is none. *)
Example Get_NotFound :
  snd (@Get noJSON nat no_rows a_thing O) = Some (Wrapped NotFound).
Proof. vm_compute. reflexivity. Qed.

(** * Further properties *)

(** ** Field discovery *)

(** Where the descriptors of a struct point, relative to the struct: the
    member [j] (counted from [i]) and a path below it that reaches a
    supported cell. *)
Lemma struct_fields_good (ms : Members) :
  forall path i f,
    In f (struct_fields ms path i) ->
    fresh f
    /\ exists j rest v,
        Value f = (path ++ (i + j)%nat :: rest)%list
        /\ deref (VStruct ms) (j :: rest) = Some v
        /\ supported v = true.
Proof.
  induction ms as [| | | ms IH | | | | | name tag canSet v IHv rest IHrest]
    using Members_ind2
    with (P := fun v =>
                 match v with
                 | VStruct ms =>
                     forall path i f,
                       In f (struct_fields ms path i) ->
                       fresh f
                       /\ exists j rest v,
                           Value f = (path ++ (i + j)%nat :: rest)%list
                           /\ deref (VStruct ms) (j :: rest) = Some v
                           /\ supported v = true
                 | _ => True
                 end);
    try exact I; try exact IH.
  - intros path i f [].
  - intros path i f I. simpl in I. apply in_app_or in I. destruct I as [I|I].
    + assert (Leaf : forall t,
                 supported v = true ->
                 In f [mkField (path ++ [i])%list t name "" 0 false] ->
                 fresh f
                 /\ exists j rest0 v0,
                     Value f = (path ++ (i + j)%nat :: rest0)%list
                     /\ deref (VStruct (MCons name tag canSet v rest)) (j :: rest0)
                        = Some v0
                     /\ supported v0 = true).
      { intros t Sup [<-|[]]. split; [repeat split|].
        exists 0%nat, [], v. rewrite Nat.add_0_r. repeat split; auto. }
      destruct canSet; [|destruct I].
      destruct v as [b|t n|s|nested|elems|entries|];
        destruct tag as [sqlTag|]; simpl in I;
        try (now apply (Leaf sqlTag)); try destruct I.
      destruct (IHv (path ++ [i])%list 0%nat f I)
        as [Fr [j [rest0 [v0 [V [D Sup]]]]]].
      split; [exact Fr|].
      exists 0%nat, (j :: rest0), v0. rewrite Nat.add_0_r.
      rewrite V, <- app_assoc. simpl. repeat split; auto.
    + destruct (IHrest path (S i) f I) as [Fr [j [rest0 [v0 [V [D Sup]]]]]].
      split; [exact Fr|].
      exists (S j), rest0, v0. rewrite Nat.add_succ_r. repeat split; auto.
Qed.

Lemma struct_fields_NoDup (ms : Members) :
  forall path i, NoDup (map Value (struct_fields ms path i)).
Proof.
  induction ms as [| | | ms IH | | | | | name tag canSet v IHv rest IHrest]
    using Members_ind2
    with (P := fun v =>
                 match v with
                 | VStruct ms =>
                     forall path i, NoDup (map Value (struct_fields ms path i))
                 | _ => True
                 end);
    try exact I; try exact IH.
  - intros path i. constructor.
  - intros path i. simpl. rewrite map_app.
    assert (Tail : forall p, In p (map Value (struct_fields rest path (S i))) ->
                             exists k r, p = (path ++ k :: r)%list /\ (i < k)%nat).
    { intros p I. apply in_map_iff in I. destruct I as [f [<- I]].
      destruct (struct_fields_good rest path (S i) f I)
        as [_ [j [r [v0 [V _]]]]].
      exists (S i + j)%nat, r. split; [exact V | lia]. }
    assert (Apart : forall l,
               (forall p, In p l -> exists r, p = (path ++ i :: r)%list) ->
               NoDup l ->
               NoDup (l ++ map Value (struct_fields rest path (S i)))).
    { intros l Head N. induction N as [|p l NI N IHl]; simpl.
      - apply IHrest.
      - constructor; [|apply IHl; intros q I; apply Head; now right].
        intro I. apply in_app_or in I. destruct I as [I|I]; [now apply NI|].
        destruct (Head p (or_introl eq_refl)) as [r E].
        destruct (Tail p I) as [k [r' [E' L]]].
        rewrite E in E'. apply app_inv_head in E'. inversion E'. lia. }
    apply Apart.
    + intros p I. apply in_map_iff in I. destruct I as [f [<- I]].
      destruct canSet; [|destruct I].
      destruct v as [b|t n|s|nested|elems|entries|];
        destruct tag as [sqlTag|]; simpl in I;
        try destruct I as [<-|[]]; try (now exists []); try destruct I.
      destruct (struct_fields_good nested (path ++ [i])%list 0%nat f I)
        as [_ [j [r [v0 [V _]]]]].
      exists (j :: r). rewrite V, <- app_assoc. reflexivity.
    + destruct canSet; [|constructor].
      destruct v as [b|t n|s|nested|elems|entries|];
        destruct tag as [sqlTag|]; simpl;
        try (constructor; [intros []|constructor]); try constructor.
      apply IHv.
Qed.

Lemma Fields_unflagged (model : Model) (fields : list Field) :
  Fields model = Ok fields -> Forall (fun f => isParam f = false) fields.
Proof.
  destruct model as [n [[| | |ms| | |]|]|n v]; simpl; try discriminate.
  intro E. inversion E; subst. apply Forall_forall. intros f I.
  destruct (struct_fields_good ms [] 0%nat f I) as [[_ [_ Fl]] _]. exact Fl.
Qed.

(** X1. The descriptors [Fields] derives from a record are fresh, each
    points to a cell of the record of a supported kind, and no two of them
    point to the same cell. *)
Theorem Fields_descriptors (model : Model) (fields : list Field) :
  Fields model = Ok fields ->
  Forall (fun f => fresh f
                   /\ exists v, cell (record model) f = Some v
                                /\ supported v = true) fields
  /\ NoDup (map Value fields).
Proof.
  destruct model as [n [[| | |ms| | |]|]|n v]; simpl; try discriminate.
  intro E. inversion E; subst. split; [|apply struct_fields_NoDup].
  apply Forall_forall. intros f I.
  destruct (struct_fields_good ms [] 0%nat f I) as [Fr [j [r [v [V [D S]]]]]].
  split; [exact Fr|]. exists v. unfold cell. rewrite V. simpl app.
  split; [exact D | exact S].
Qed.

Lemma Fields_descriptors_witness :
  Fields a_thing = Ok (fields_of a_thing)
  /\ NoDup (map Value (fields_of a_thing))
  /\ map Value (fields_of a_thing)
     = [[0%nat]; [1%nat]; [2%nat]; [3%nat]; [4%nat]].
Proof.
  split; [reflexivity|]. split; [|reflexivity].
  exact (proj2 (Fields_descriptors a_thing (fields_of a_thing) eq_refl)).
Defined.

Lemma same_fields_refl (v : GoValue) : same_fields v v.
Proof. destruct v; simpl; auto. Qed.

Lemma set_member_same_fields (g : GoValue -> GoValue) (ms : Members) :
  forall j v,
    member ms j = Some v -> same_fields v (g v) ->
    forall path i,
      struct_fields (set_member ms j g) path i = struct_fields ms path i.
Proof.
  induction ms as [|name tag canSet u rest IH]; intros j v M Sf path i;
    [reflexivity|].
  destruct j as [|j]; simpl in M |- *.
  - injection M as E. subst u. f_equal.
    destruct canSet; [|reflexivity].
    destruct (g v) as [| | | | | |]; destruct v;
      simpl in Sf; try contradiction;
      try (destruct tag; reflexivity);
      try (exfalso;
           repeat match goal with t : IntType |- _ => destruct t end;
           discriminate).
    destruct tag; [reflexivity | symmetry; apply Sf].
  - f_equal. eapply IH; eauto.
Qed.

Lemma assign_same_fields (p : Ref) :
  forall h v x,
    deref h p = Some v -> same_fields v x -> same_fields h (assign p x h).
Proof.
  induction p as [|j p IH]; intros h v x D Sf; simpl in *.
  - inversion D; subst. exact Sf.
  - destruct h as [| | |ms| | |]; try discriminate.
    destruct (member ms j) as [u|] eqn:M; [|discriminate].
    simpl. intros path i. symmetry.
    apply (set_member_same_fields (assign p x) ms j u M).
    now apply (IH u v x).
Qed.

Lemma store_keeps_fields (n : string) (h : GoValue) (p : Ref) (v x : GoValue) :
  deref h p = Some v ->
  Kind v <> reflect.Struct ->
  Kind x = Kind v ->
  Fields (Pointer n (Some (assign p x h))) = Fields (Pointer n (Some h)).
Proof.
  intros D NS K.
  assert (Sf : same_fields v x).
  { destruct x; destruct v; simpl in *; try congruence; try discriminate;
      repeat match goal with t : IntType |- _ => destruct t end;
      simpl in *; congruence. }
  pose proof (assign_same_fields p h v x D Sf) as A.
  destruct (assign p x h); destruct h; simpl in A |- *; try contradiction;
    try reflexivity.
  now rewrite A.
Qed.

(** X2. [Fields] reads the type of the record, not its content: after a
    value is stored into a cell that is not a struct, of the kind the cell
    had, [Fields] gives the same descriptors. *)
Theorem Fields_after_store (n : string) (h : GoValue) (p : Ref) (v x : GoValue) :
  deref h p = Some v ->
  Kind v <> reflect.Struct ->
  Kind x = Kind v ->
  Fields (Pointer n (Some (assign p x h))) = Fields (Pointer n (Some h)).
Proof. exact (store_keeps_fields n h p v x). Qed.

Lemma Fields_after_store_witness :
  deref (thing "" "a" "k" 1 "x") [3%nat] = Some (VInt TInt 1)
  /\ Fields (Pointer "Thing"
               (Some (assign [3%nat] (VInt TInt 7) (thing "" "a" "k" 1 "x"))))
     = Fields new_thing.
Proof.
  split; [reflexivity|].
  apply (Fields_after_store "Thing" (thing "" "a" "k" 1 "x") [3%nat]
           (VInt TInt 1) (VInt TInt 7) eq_refl);
    [discriminate | reflexivity].
Defined.

(** ** The synthesised key *)

Lemma be_length (n : nat) (u : Z) : List.length (binary.be n u) = n.
Proof. induction n; simpl; auto. Qed.

Lemma be_bytes (n : nat) (u : Z) :
  Forall (fun b => 0 <= b < 256) (binary.be n u).
Proof.
  induction n; simpl; constructor; auto.
  apply Z.mod_pos_bound. lia.
Qed.

Lemma Sum_bytes (h : sha1.Hash) :
  List.length (sha1.Sum h) = 20%nat
  /\ Forall (fun b => 0 <= b < 256) (sha1.Sum h).
Proof.
  unfold sha1.Sum.
  destruct (sha1.blocks _ sha1.init (sha1.pad h)) as [[[[a b] c] d] e].
  split.
  - rewrite !length_app, !be_length. reflexivity.
  - repeat (apply Forall_app; split); apply be_bytes.
Qed.

Lemma hex_digit_lower (d : Z) : 0 <= d < 16 -> lower_hex (hex.digit d) = true.
Proof.
  intro R.
  assert (C : d = 0 \/ d = 1 \/ d = 2 \/ d = 3 \/ d = 4 \/ d = 5 \/ d = 6
              \/ d = 7 \/ d = 8 \/ d = 9 \/ d = 10 \/ d = 11 \/ d = 12
              \/ d = 13 \/ d = 14 \/ d = 15) by lia.
  repeat (destruct C as [->|C]; [reflexivity|]). now subst.
Qed.

Lemma hex_encoding (l : list Z) :
  Forall (fun b => 0 <= b < 256) l ->
  String.length (hex.EncodeToString l) = (2 * List.length l)%nat
  /\ forallb lower_hex (strings.chars (hex.EncodeToString l)) = true.
Proof.
  induction 1 as [|b l B _ [IH1 IH2]]; [split; reflexivity|].
  cbn [hex.EncodeToString String.length List.length strings.chars
       list_ascii_of_string forallb].
  unfold strings.chars in IH2. rewrite IH1, IH2. split; [lia|].
  rewrite !hex_digit_lower; [reflexivity| |].
  - apply Z.mod_pos_bound. lia.
  - split; [apply Z.div_pos; lia | apply Z.div_lt_upper_bound; lia].
Qed.

(** X3. A synthesised primary key is forty lowercase hexadecimal
    characters, whatever the keys: it is never empty. *)
Theorem synthesized_pk_shape (keys : list (option GoValue)) :
  String.length (synthesized_pk keys) = 40%nat
  /\ forallb lower_hex (strings.chars (synthesized_pk keys)) = true.
Proof.
  unfold synthesized_pk.
  destruct (Sum_bytes (flat_map value_bytes keys)) as [L B].
  destruct (hex_encoding _ B) as [E1 E2]. rewrite E1, L. now split.
Qed.

Section SetPkAgain.

Context {lib : GoLib}.

Lemma with_record_record (m : Model) : with_record m (record m) = m.
Proof. destruct m as [n [h|]|n v]; reflexivity. Qed.

Lemma digest_not_empty (l : list Z) :
  hex.EncodeToString (sha1.Sum l) <> "".
Proof.
  destruct (Sum_bytes l) as [L B]. destruct (hex_encoding _ B) as [E _].
  rewrite L in E. intro N. rewrite N in E. discriminate.
Qed.

(** What [SetPk] does to the record: nothing, or it stores a digest into a
    string pk that was empty. *)
Lemma SetPk_record (h : GoValue) (fs : list Field) :
  fst (fst (SetPk h fs)) = h
  \/ exists pk d,
      PkField fs = Some pk /\ cell h pk = Some (VString "")
      /\ fst (fst (SetPk h fs)) = assign (Value pk) (VString d) h
      /\ d <> "".
Proof.
  destruct (PkField fs) as [pk|] eqn:P.
  - destruct (cell h pk) as [v|] eqn:C.
    + destruct v as [b|t n|s|ms|elems|entries|];
        try (left; unfold SetPk, FieldKind; rewrite P, C; simpl;
             try destruct t; reflexivity).
      destruct (String.eqb s "") eqn:E.
      * apply String.eqb_eq in E. subst s. right.
        destruct (SetPk_digest h fs pk P C) as [D _].
        eexists pk, _. repeat split; eauto. apply digest_not_empty.
      * left.
        assert (K : FieldKind h pk = reflect.String)
          by (unfold FieldKind; now rewrite C).
        assert (S0 : f_string (fst (Pull h pk)) = s)
          by (unfold Pull; now rewrite C).
        unfold SetPk. rewrite P, K, S0, E. reflexivity.
    + left. unfold SetPk, FieldKind. rewrite P, C. reflexivity.
  - left. unfold SetPk. rewrite P. reflexivity.
Qed.

Lemma SetPk_settles (m : Model) :
  after_SetPk (after_SetPk m) = after_SetPk m.
Proof.
  destruct (SetPk_record (record m) (fields_of m))
    as [E | [pk [d [P [C [E N]]]]]].
  - assert (A : after_SetPk m = m)
      by (unfold after_SetPk; rewrite E; apply with_record_record).
    now rewrite !A.
  - destruct m as [n [h|]|n v]; try discriminate P.
    simpl record in *.
    assert (A : after_SetPk (Pointer n (Some h))
                = Pointer n (Some (assign (Value pk) (VString d) h)))
      by (unfold after_SetPk; simpl record; rewrite E; reflexivity).
    rewrite A. unfold after_SetPk at 1. simpl record.
    set (h' := assign (Value pk) (VString d) h).
    assert (F : fields_of (Pointer n (Some h')) = fields_of (Pointer n (Some h))).
    { unfold fields_of, h'.
      rewrite (store_keeps_fields n h (Value pk) (VString "") (VString d));
        [reflexivity | exact C | discriminate | reflexivity]. }
    rewrite F.
    assert (C' : cell h' pk = Some (VString d))
      by (unfold cell, h'; eapply deref_assign; exact C).
    assert (S1 : fst (fst (SetPk h' (fields_of (Pointer n (Some h))))) = h').
    { assert (K : FieldKind h' pk = reflect.String)
        by (unfold FieldKind; now rewrite C').
      assert (S0 : f_string (fst (Pull h' pk)) = d)
        by (unfold Pull; now rewrite C').
      unfold SetPk. rewrite P, K, S0.
      destruct (String.eqb d "") eqn:Ed; [|reflexivity].
      apply String.eqb_eq in Ed. contradiction. }
    rewrite S1. reflexivity.
Qed.

(** X4. [SetPk] settles in one step: on the model it leaves, a second
    [SetPk] changes nothing.  In particular a key, once synthesised or set
    by the caller, is never replaced. *)
Theorem after_SetPk_idempotent (m : Model) :
  after_SetPk (after_SetPk m) = after_SetPk m.
Proof. exact (SetPk_settles m). Qed.

Variable Conn : Type.

(** X5. What [Insert], [Update] and [Delete] do to the model is what
    [SetPk] does to it, whatever the driver answers. *)
Theorem write_leaves_SetPk_model (t : Table Conn) (m : Model) (c : Conn) :
  snd (fst (Insert t m c)) = after_SetPk m
  /\ snd (fst (Update t m c)) = after_SetPk m
  /\ snd (fst (Delete t m c)) = after_SetPk m.
Proof.
  assert (U : forall m c, snd (fst (Update t m c)) = after_SetPk m).
  { clear m c. intros m c. unfold Update, after_SetPk, fields_of.
    destruct (Fields m) as [fs|e].
    - destruct (SetPk (record m) fs) as [[h fs1] e1]. simpl fst.
      destruct (updateSQL _ fs1) as [fs2 [stmt|e2]]; [|reflexivity].
      destruct (Params h fs2) as [fs3 params].
      destruct (Exec (DB t) c stmt params) as [c' [r|e3]]; [|reflexivity].
      destruct (RowsAffected r) as [nRows [e4|]]; [reflexivity|].
      destruct (nRows =? 0); reflexivity.
    - simpl. now rewrite with_record_record. }
  split; [|split; [apply U|]].
  - unfold Insert. destruct (Fields m) as [fs|e] eqn:F.
    + assert (A : after_SetPk m
                  = with_record m (fst (fst (SetPk (record m) fs))))
        by (unfold after_SetPk, fields_of; now rewrite F).
      destruct (SetPk (record m) fs) as [[h fs1] e1]. simpl fst in A.
      unfold insertSQL.
      destruct (Params h _) as [fs3 params].
      destruct (Exec (DB t) c _ params) as [c' [r|e3]].
      * destruct (RowsAffected r) as [nRows [e4|]]; simpl; now rewrite A.
      * destruct e3; simpl; try (now rewrite A).
        destruct (Code =? ErrConstraint); simpl; [|now rewrite A].
        rewrite U, <- A. apply SetPk_settles.
    + unfold after_SetPk, fields_of. rewrite F. simpl.
      now rewrite with_record_record.
  - unfold Delete, after_SetPk, fields_of.
    destruct (Fields m) as [fs|e].
    + destruct (SetPk (record m) fs) as [[h fs1] e1]. simpl fst.
      destruct (deleteSQL _ fs1) as [fs2 [stmt|e2]]; [|reflexivity].
      destruct (Params h fs2) as [fs3 params].
      destruct (Exec (DB t) c stmt params) as [c' [r|e3]]; [|reflexivity].
      destruct (RowsAffected r) as [nRows [e4|]]; [reflexivity|].
      destruct (nRows =? 0); reflexivity.
    + simpl. now rewrite with_record_record.
Qed.

End SetPkAgain.

(** ** Staging round trips *)

Lemma set_member_id (g : GoValue -> GoValue) (ms : Members) :
  forall i u, member ms i = Some u -> g u = u -> set_member ms i g = ms.
Proof.
  induction ms as [|n t c v r IH]; intros [|i] u M G; simpl in *;
    try discriminate.
  - injection M as E. subst v. now rewrite G.
  - f_equal. eapply IH; eauto.
Qed.

Lemma assign_same (p : Ref) :
  forall h v, deref h p = Some v -> assign p v h = h.
Proof.
  induction p as [|i p IH]; intros h v D; simpl in *.
  - now injection D.
  - destruct h as [| | |ms| | |]; try discriminate.
    destruct (member ms i) as [u|] eqn:M; [|discriminate].
    f_equal. apply (set_member_id (assign p v) ms i u M). now apply IH.
Qed.

Lemma member_set_member_other (g : GoValue -> GoValue) (ms : Members) :
  forall i j, i <> j -> member (set_member ms i g) j = member ms j.
Proof.
  induction ms as [|n t c v r IH]; intros [|i] [|j] N; simpl; auto;
    congruence.
Qed.

Lemma deref_assign_other (p : Ref) :
  forall h q s x v,
    deref h p = Some (VString s) ->
    deref h q = Some v -> Kind v <> reflect.Struct -> q <> p ->
    deref (assign p x h) q = Some v.
Proof.
  induction p as [|i p IH]; intros h q s x v D Q K N.
  - simpl in D. injection D as E. subst h.
    destruct q as [|j q]; [congruence | discriminate].
  - simpl in D. destruct h as [| | |ms| | |]; try discriminate.
    destruct (member ms i) as [u|] eqn:M; [|discriminate].
    destruct q as [|j q].
    + simpl in Q. injection Q as E. subst v. now elim K.
    + simpl in Q |- *. destruct (Nat.eq_dec i j) as [->|NE].
      * rewrite member_set_member, M. rewrite M in Q. simpl.
        apply (IH u q s x v D Q K). congruence.
      * rewrite member_set_member_other by exact NE. exact Q.
Qed.

Lemma wrap_wrap (t : IntType) (z : Z) :
  wrap (bits t) (wrap (bits t) z) = wrap (bits t) z.
Proof.
  unfold wrap.
  replace ((z + 2 ^ (bits t - 1)) mod 2 ^ bits t - 2 ^ (bits t - 1)
           + 2 ^ (bits t - 1))
    with ((z + 2 ^ (bits t - 1)) mod 2 ^ bits t) by lia.
  rewrite Z.mod_mod; [reflexivity|]. destruct t; discriminate.
Qed.

Section StagingFacts.

Context {lib : GoLib}.

(** X6. On a settled scalar cell, [Pull] followed by [Push] leaves the
    record as it was. *)
Theorem Push_Pull_restores (h : GoValue) (f : Field) :
  settled h f -> Push h (fst (Pull h f)) = h.
Proof.
  unfold settled. intro S.
  pose proof (Pull_cell h f) as C. unfold Push. rewrite C.
  unfold Pull. unfold cell in *.
  destruct (deref h (Value f)) as [[b|t n|s|ms|elems|entries|]|] eqn:D;
    try contradiction; simpl.
  - destruct S as [->|Z0]; simpl.
    + now apply assign_same.
    + destruct b; simpl; [now apply assign_same|].
      rewrite Z0. simpl. now apply assign_same.
  - rewrite wrap_wrap, S. now apply assign_same.
  - now apply assign_same.
Qed.

(** X7. [Push] followed by [Pull] reads back what was pushed, as the cell
    can hold it: the string; the integer wrapped to the width of the cell;
    [0] or [1] for a boolean, whatever non-zero number was staged. *)
Theorem Pull_Push_reads_back (h : GoValue) (f : Field) (v : GoValue) :
  cell h f = Some v ->
  match v with
  | VString _ => snd (Pull (Push h f) f) = AString (f_string f)
  | VInt t _ => snd (Pull (Push h f) f) = AInt64 (wrap (bits t) (f_int f))
  | VBool _ =>
      snd (Pull (Push h f) f) = AInt64 (if f_int f =? 0 then 0 else 1)
  | _ => True
  end.
Proof.
  intro C. unfold Push. rewrite C. unfold cell in C.
  destruct v as [b|t n|s|ms|elems|entries|]; try exact I;
    unfold Pull, cell; erewrite deref_assign by exact C; simpl.
  - destruct (f_int f =? 0) eqn:E; simpl; [|reflexivity].
    apply Z.eqb_eq in E. now rewrite E.
  - now rewrite wrap_wrap.
  - reflexivity.
Qed.

(** X8. [SetPk] stores into the pk cell only: every other cell that is
    not a struct keeps its value. *)
Theorem SetPk_keeps_other_cells (h : GoValue) (fs : list Field) (q : Ref)
        (v : GoValue) :
  deref h q = Some v ->
  Kind v <> reflect.Struct ->
  (forall pk, PkField fs = Some pk -> q <> Value pk) ->
  deref (fst (fst (SetPk h fs))) q = Some v.
Proof.
  intros Q K N.
  destruct (SetPk_record h fs) as [-> | [pk [d [P [C [-> _]]]]]]; [exact Q|].
  apply (deref_assign_other (Value pk) h q "" (VString d) v C Q K).
  now apply N.
Qed.

End StagingFacts.

Lemma Push_Pull_restores_witness :
  settled (record a_thing) (mkField [3%nat] "const" "Count" "old" 5 false)
  /\ @Push noJSON (record a_thing)
       (fst (@Pull noJSON (record a_thing)
               (mkField [3%nat] "const" "Count" "old" 5 false)))
     = record a_thing.
Proof.
  assert (S : settled (record a_thing)
                      (mkField [3%nat] "const" "Count" "old" 5 false))
    by reflexivity.
  split; [exact S|].
  exact (@Push_Pull_restores noJSON (record a_thing) _ S).
Defined.

Lemma Pull_Push_reads_back_witness :
  cell (single (VInt TInt8 0)) (staged 300 "") = Some (VInt TInt8 0)
  /\ snd (@Pull noJSON (@Push noJSON (single (VInt TInt8 0)) (staged 300 ""))
            (staged 300 ""))
     = AInt64 44.
Proof.
  split; [reflexivity|].
  exact (@Pull_Push_reads_back noJSON (single (VInt TInt8 0)) (staged 300 "")
           (VInt TInt8 0) eq_refl).
Defined.

Lemma SetPk_keeps_other_cells_witness :
  deref (record new_thing) [4%nat] = Some (VString "x")
  /\ deref (fst (fst (@SetPk noJSON (record new_thing) (fields_of new_thing))))
           [4%nat]
     = Some (VString "x").
Proof.
  split; [reflexivity|].
  apply (@SetPk_keeps_other_cells noJSON (record new_thing)
           (fields_of new_thing) [4%nat] (VString "x") eq_refl);
    [discriminate|].
  intros pk P. vm_compute in P. injection P as <-. discriminate.
Defined.

(** ** Validation and the statements that need a pk *)

(** X9. [Validate] in closed form: a field tagged [pk] whose kind is
    neither string nor integer gives [PkTypeErr], also when the record has
    another, well-typed pk; otherwise a record without pk gives
    [MustHavePkErr]; otherwise the record is valid. *)
Theorem Validate_cases (h : GoValue) (fields : list Field) :
  Validate h fields
  = if existsb (fun f => Pk f && negb (pk_kind h f)) fields
    then Some (Wrapped PkTypeErr)
    else match PkField fields with
         | None => Some (Wrapped MustHavePkErr)
         | Some _ => None
         end.
Proof.
  unfold Validate.
  assert (E : forall l,
             (fix each (l : list Field) : option error :=
                match l with
                | [] => None
                | f :: r =>
                    match Field_Validate h f with
                    | Some err => liberr_Wrap (Some err)
                    | None => each r
                    end
                end) l
             = if existsb (fun f => Pk f && negb (pk_kind h f)) l
               then Some (Wrapped PkTypeErr) else None).
  { induction l as [|f l IH]; [reflexivity|].
    simpl existsb. rewrite IH. unfold Field_Validate, pk_kind.
    destruct (FieldKind h f); destruct (Pk f); reflexivity. }
  rewrite E. destruct (existsb _ fields); reflexivity.
Qed.

Section NoPk.

Context {lib : GoLib}.
Variable Conn : Type.

(** X10. On a record without a pk field, [Update], [Delete] and [Get] fail
    while the statement is rendered: the driver is not called, the
    connection and the model are as before. *)
Theorem no_pk_fails_before_driver (t : Table Conn) (m : Model) (c : Conn)
        (fields : list Field) :
  Fields m = Ok fields ->
  PkField fields = None ->
  Update t m c = (c, m, Some (Wrapped nilPkErr))
  /\ Delete t m c = (c, m, Some (Wrapped nilPkErr))
  /\ Get t m c = (c, m, Some (Wrapped nilPkErr)).
Proof.
  intros F P.
  assert (S0 : SetPk (record m) fields = (record m, fields, None))
    by (unfold SetPk; now rewrite P).
  assert (U : forall c, Update t m c = (c, m, Some (Wrapped nilPkErr))).
  { intro c0. unfold Update. rewrite F, S0, with_record_record.
    unfold updateSQL.
    rewrite (PkField_tags fields _
               (eq_sym (map_if_tags Mutable (fun f => fst (Param f)) fields
                                    (fun f => eq_refl))) P).
    reflexivity. }
  split; [apply U|]. split.
  - unfold Delete. rewrite F, S0, with_record_record.
    unfold deleteSQL. rewrite P. reflexivity.
  - unfold Get. rewrite F, S0, with_record_record.
    unfold getSQL. rewrite P. reflexivity.
Qed.

End NoPk.

Lemma no_pk_fails_before_driver_witness :
  Fields keyless = Ok (fields_of keyless)
  /\ PkField (fields_of keyless) = None
  /\ @Update noJSON nat accepting keyless O
     = (O, keyless, Some (Wrapped nilPkErr))
  /\ @Insert noJSON nat accepting keyless O = (1%nat, keyless, None).
Proof.
  split; [reflexivity|]. split; [reflexivity|].
  split; [|vm_compute; reflexivity].
  exact (proj1 (@no_pk_fails_before_driver noJSON nat accepting keyless O
                  (fields_of keyless) eq_refl eq_refl)).
Defined.

(** ** Statements and their parameters *)

Section ParamFacts.

Context {lib : GoLib}.

Lemma snd_Pull_flag (h : GoValue) (f : Field) (b : bool) :
  snd (Pull h (set_isParam f b)) = snd (Pull h f).
Proof.
  unfold Pull, cell. simpl Value.
  destruct (deref h (Value f)) as [[c|t n|s|ms|[elems|]|[entries|]|]|];
    simpl; try reflexivity.
  - destruct c; reflexivity.
  - destruct (json_Marshal _); reflexivity.
  - destruct (json_Marshal _); reflexivity.
  - destruct (json_Marshal _); reflexivity.
Qed.

(** [Params] binds the flagged fields, in order, each under its name with
    the value [Pull] stages. *)
Lemma Params_bound (h : GoValue) (fs : list Field) :
  snd (Params h fs)
  = map (fun f => Named (Name f) (snd (Pull h f))) (filter isParam fs).
Proof.
  induction fs as [|f fs IH]; [reflexivity|]. simpl.
  destruct (isParam f).
  - destruct (Pull h f) as [f' v] eqn:E. destruct (Params h fs) as [r' l].
    simpl in *. rewrite ?E. simpl. now rewrite IH.
  - destruct (Params h fs) as [r' l]. simpl in *. exact IH.
Qed.

Lemma flag_where (p : Field -> bool) (fs : list Field) :
  Forall (fun f => isParam f = false) fs ->
  filter isParam (map (fun f => if p f then set_isParam f true else f) fs)
  = map (fun f => set_isParam f true) (filter p fs).
Proof.
  induction 1 as [|f fs U _ IH]; [reflexivity|]. simpl.
  destruct (p f); simpl; [now rewrite IH | now rewrite U].
Qed.

Lemma flag_first_pk (fs : list Field) (pk : Field) :
  Forall (fun f => isParam f = false) fs ->
  PkField fs = Some pk ->
  filter isParam (modify_first Pk (fun f => set_isParam f true) fs)
  = [set_isParam pk true].
Proof.
  induction 1 as [|f fs U A IH]; [discriminate|]. simpl.
  destruct (Pk f) eqn:P; intro E.
  - injection E as ->. simpl.
    assert (N : filter isParam fs = []).
    { clear - A. induction A as [|g gs U _ IH]; [reflexivity|].
      simpl. now rewrite U. }
    now rewrite N.
  - simpl. rewrite U. now apply IH.
Qed.

(** X11. The statement [insertSQL] renders and the parameters [Params]
    then binds agree: one placeholder and one parameter for each field that
    is not virtual, in the order of the fields, the parameter carrying the
    value [Pull] stages; a virtual field is never bound. *)
Theorem insert_binds_real_fields (h : GoValue) (table : string)
        (fs : list Field) :
  Forall (fun f => isParam f = false) fs ->
  snd (insertSQL table fs)
  = Ok (InsertSQL table (map Name (RealFields fs))
                  (map (fun f => ":" ++ Name f) (RealFields fs)))
  /\ snd (Params h (fst (insertSQL table fs)))
     = map (fun f => Named (Name f) (snd (Pull h f))) (RealFields fs).
Proof.
  intro U. split; [reflexivity|].
  rewrite Params_bound. unfold insertSQL. simpl.
  rewrite (flag_where (fun f => negb (Virtual f)) fs U).
  unfold RealFields. rewrite map_map. apply map_ext.
  intro f. simpl. f_equal. apply (snd_Pull_flag h f true).
Qed.

(** X12. [updateSQL] followed by [Params] binds the mutable fields and the
    pk, and nothing else: no key, constant or virtual field other than the
    pk is sent with an UPDATE. *)
Theorem update_binds_mutable_and_pk (h : GoValue) (table : string)
        (fs : list Field) (pk : Field) :
  Forall (fun f => isParam f = false) fs ->
  PkField fs = Some pk ->
  Permutation (map Arg_Name (snd (Params h (fst (updateSQL table fs)))))
              (map Name (MutableFields fs) ++ [Name pk]).
Proof.
  intros U P. rewrite Params_bound, map_map.
  unfold updateSQL.
  assert (P1 : PkField (map (fun f => if Mutable f then fst (Param f) else f) fs)
               <> None).
  { intro N. apply (PkField_tags _ fs) in N; [congruence|].
    apply map_if_tags. reflexivity. }
  destruct (PkField (map _ fs)) as [pk1|] eqn:E1; [clear P1|congruence].
  cbn [fst]. clear E1 pk1. revert P.
  assert (PkSet : forall f b, Pk (set_isParam f b) = Pk f) by reflexivity.
  induction U as [|f fs Uf U IH]; [discriminate|].
  unfold PkField, MutableFields. cbn [find filter map modify_first].
  fold (PkField fs). fold (MutableFields fs).
  destruct (Pk f) eqn:Pf.
  - assert (Mf : Mutable f = false) by (unfold Mutable; now rewrite Pf).
    rewrite Mf, Pf. intro E. injection E as ->.
    cbn [filter map Param fst set_isParam isParam Name].
    change (fun f0 => if Mutable f0 then fst (Param f0) else f0)
      with (fun f0 => if Mutable f0 then set_isParam f0 true else f0).
    rewrite (flag_where Mutable fs U), map_map.
    apply Permutation_cons_append.
  - intro E. specialize (IH E). destruct (Mutable f) eqn:Mf.
    + cbn [Param fst]. rewrite PkSet, Pf.
      cbn [filter map set_isParam isParam Name app].
      now apply perm_skip.
    + rewrite Pf. cbn [filter map]. rewrite Uf. exact IH.
Qed.

Lemma pk_is_bound (h : GoValue) (table : string)
        (fs : list Field) (pk : Field) :
  Forall (fun f => isParam f = false) fs ->
  PkField fs = Some pk ->
  snd (Params h (fst (deleteSQL table fs)))
  = [Named (Name pk) (snd (Pull h pk))]
  /\ snd (Params h (fst (getSQL table fs)))
     = [Named (Name pk) (snd (Pull h pk))].
Proof.
  intros U P. unfold deleteSQL, getSQL. rewrite P.
  rewrite !Params_bound. simpl.
  rewrite (flag_first_pk fs pk U P). simpl.
  rewrite (snd_Pull_flag h pk true). now split.
Qed.

(** X13. [deleteSQL] and [getSQL] followed by [Params] bind one
    parameter: the pk, under its name, with the value [Pull] stages. *)
Theorem delete_get_bind_pk (h : GoValue) (table : string)
        (fs : list Field) (pk : Field) :
  Forall (fun f => isParam f = false) fs ->
  PkField fs = Some pk ->
  snd (Params h (fst (deleteSQL table fs)))
  = [Named (Name pk) (snd (Pull h pk))]
  /\ snd (Params h (fst (getSQL table fs)))
     = [Named (Name pk) (snd (Pull h pk))].
Proof. exact (pk_is_bound h table fs pk). Qed.

End ParamFacts.

Section OneCall.

Context {lib : GoLib}.

Lemma Pull_label (h : GoValue) (f : Field) : label (fst (Pull h f)) = label f.
Proof.
  unfold Pull.
  destruct (cell h f) as [[b|t n|s|ms|[elems|]|[entries|]|]|];
    simpl; try reflexivity.
  - destruct b; reflexivity.
  - destruct (json_Marshal _); reflexivity.
  - destruct (json_Marshal _); reflexivity.
  - destruct (json_Marshal _); reflexivity.
Qed.

Lemma modify_first_label (p : Field -> bool) (g : Field -> Field)
      (fs : list Field) :
  (forall f, label (g f) = label f) ->
  map label (modify_first p g fs) = map label fs.
Proof.
  intro G. induction fs as [|f fs IH]; simpl; [reflexivity|].
  destruct (p f); simpl; [now rewrite G | now rewrite IH].
Qed.

Lemma SetPk_label (h : GoValue) (fs : list Field) :
  map label (snd (fst (SetPk h fs))) = map label fs.
Proof.
  unfold SetPk. destruct (PkField fs) as [pk|]; [|reflexivity].
  assert (M : map label (modify_first Pk (fun f => fst (Pull h f)) fs)
              = map label fs)
    by (apply modify_first_label; intro; apply Pull_label).
  destruct (FieldKind h pk); try reflexivity.
  destruct (negb _); [exact M|].
  pose proof (hash_keys_fst h (modify_first Pk (fun f => fst (Pull h f)) fs)
                            sha1.New) as T.
  destruct (hash_keys h _ sha1.New) as [ks hash]. simpl in T.
  assert (D : map label (modify_first Pk
                (fun f => set_string f (hex.EncodeToString (sha1.Sum hash))) ks)
              = map label fs).
  { rewrite modify_first_label by reflexivity. rewrite T, <- M, map_map.
    apply map_ext. intro f. destruct (Key f); [apply Pull_label|reflexivity]. }
  destruct (PkField _); exact D.
Qed.

Lemma PkField_label (fs gs : list Field) (pk : Field) :
  map label fs = map label gs ->
  PkField fs = Some pk ->
  exists pk', PkField gs = Some pk' /\ Name pk' = Name pk.
Proof.
  revert gs. induction fs as [|f fs IH]; intros [|g gs] E P; simpl in *;
    try discriminate.
  injection E as Et En Ep E2.
  rewrite (Pk_Tag g f (eq_sym Et)). destruct (Pk f).
  - injection P as <-. exists g. now split.
  - now apply IH.
Qed.

Lemma unflagged_label (fs gs : list Field) :
  map label fs = map label gs ->
  Forall (fun f => isParam f = false) fs ->
  Forall (fun f => isParam f = false) gs.
Proof.
  revert gs. induction fs as [|f fs IH]; intros [|g gs] E U;
    try discriminate; constructor; simpl in E; injection E as Et En Ep E2.
  - inversion U; subst. congruence.
  - inversion U; subst. now apply IH.
Qed.

Lemma Table_Name_with_record (m : Model) (h : GoValue) :
  Table_Name (with_record m h) = Table_Name m.
Proof. destruct m as [n [x|]|n v]; reflexivity. Qed.

(** X14. [Delete] on a record with a pk is one call of the driver: the
    DELETE statement on the pk column with one parameter, the pk.  The
    statement and the parameter do not depend on the driver; the error
    returned is the driver's, wrapped, and none otherwise, whatever the
    number of rows affected. *)
Theorem Delete_is_one_Exec (m : Model) (fs : list Field) (pk : Field) :
  Fields m = Ok fs ->
  PkField fs = Some pk ->
  exists v,
    forall (Conn : Type) (t : Table Conn) (c : Conn),
      Delete t m c
      = (fst (Exec (DB t) c
                   (DeleteSQL (Table_Name m) (Name pk) (":" ++ Name pk))
                   [Named (Name pk) v]),
         after_SetPk m,
         match snd (Exec (DB t) c
                         (DeleteSQL (Table_Name m) (Name pk) (":" ++ Name pk))
                         [Named (Name pk) v]) with
         | Err e => Some (Wrap e)
         | Ok r => option_map Wrap (snd (RowsAffected r))
         end).
Proof.
  intros F P.
  assert (A : after_SetPk m = with_record m (fst (fst (SetPk (record m) fs))))
    by (unfold after_SetPk, fields_of; now rewrite F).
  pose proof (SetPk_label (record m) fs) as L.
  destruct (SetPk (record m) fs) as [[h fs1] e1] eqn:S1. simpl in A, L.
  destruct (PkField_label fs fs1 pk (eq_sym L) P) as [pk1 [P1 N1]].
  assert (U1 : Forall (fun f => isParam f = false) fs1).
  { apply (unflagged_label fs fs1 (eq_sym L)).
    exact (Fields_unflagged m fs F). }
  exists (snd (Pull h pk1)). intros Conn t c.
  unfold Delete. rewrite F, S1, Table_Name_with_record, A.
  pose proof (proj1 (pk_is_bound h (Table_Name m) fs1 pk1 U1 P1)) as B.
  unfold deleteSQL in *. rewrite P1 in *. cbn [fst] in B.
  destruct (Params h _) as [fs2 params]. simpl in B. subst params.
  cbn [Param snd]. rewrite N1.
  destruct (Exec (DB t) c _ _) as [c' [r|e]]; simpl; [|reflexivity].
  destruct (RowsAffected r) as [n [e|]]; simpl; [reflexivity|].
  destruct (n =? 0); reflexivity.
Qed.

End OneCall.

(** ** Coercion of literals *)

Section AsValueFacts.

Context {lib : GoLib}.

(** X15. [AsValue] panics in one case only: a string field with a signed
    integer literal (possibly behind a pointer). *)
Theorem AsValue_panics_only (h : GoValue) (f : Field) (object : Object)
        (msg : string) :
  AsValue h f object = Panics msg ->
  FieldKind h f = reflect.String
  /\ exists t n, literal object = inl (Some (VInt t n)).
Proof.
  unfold AsValue.
  destruct (literal object) as [[v|]|e]; [| |discriminate].
  - destruct (FieldKind h f); destruct v as [b|t n|s|ms|elems|entries|];
      simpl; try discriminate;
      try (destruct (strconv.ParseBool s); discriminate);
      try (destruct (strconv.ParseInt s); discriminate).
    intros _. split; [reflexivity|]. now exists t, n.
  - destruct (FieldKind h f); discriminate.
Qed.

(** X16. An error of [AsValue] comes with a nil value.  A composite
    literal is refused with [PredicateValueErr] whatever the field; any
    other literal on a field that is neither string, boolean nor integer (an
    encoded field among them) is refused with [FieldTypeErr]. *)
Theorem AsValue_errors (h : GoValue) (f : Field) (object : Object) :
  (forall v e, AsValue h f object = Returns (v, Some e) -> v = ANil)
  /\ (literal object = inr PredicateValueErr ->
      AsValue h f object = Returns (ANil, Some (Wrapped PredicateValueErr)))
  /\ (forall val,
         literal object = inl val ->
         match FieldKind h f with
         | reflect.String | reflect.Bool | reflect.Int | reflect.Int8
         | reflect.Int16 | reflect.Int32 | reflect.Int64 => True
         | _ => AsValue h f object
                = Returns (ANil, Some (Wrapped FieldTypeErr))
         end).
Proof.
  split; [|split].
  - intros v e. unfold AsValue.
    destruct (literal object) as [[x|]|e0].
    + destruct (FieldKind h f); destruct x as [b|t n|s|ms|elems|entries|];
        simpl;
        repeat match goal with
               | |- context [strconv.ParseBool ?s] =>
                   destruct (strconv.ParseBool s)
               | |- context [strconv.ParseInt ?s] =>
                   destruct (strconv.ParseInt s)
               end;
        simpl; intro E;
        first [discriminate E | injection E as <- _; reflexivity].
    + destruct (FieldKind h f); simpl; intro E; injection E as <- _;
        reflexivity.
    + simpl. intro E. injection E as <- _. reflexivity.
  - intro L. unfold AsValue. rewrite L. reflexivity.
  - intros val L. unfold AsValue. rewrite L.
    destruct (FieldKind h f); try exact I; reflexivity.
Qed.

(** X17. The two boolean coercions undo each other: the text [AsValue]
    gives a string field for a boolean literal is read back, by [AsValue] on
    a boolean field, as that boolean. *)
Theorem AsValue_bool_text_round_trip
        (hs hb : GoValue) (fs fb : Field) (b : bool) :
  FieldKind hs fs = reflect.String ->
  FieldKind hb fb = reflect.Bool ->
  exists s,
    AsValue hs fs (OValue (VBool b)) = Returns (AString s, None)
    /\ AsValue hb fb (OValue (VString s)) = Returns (ABool b, None).
Proof.
  intros Ks Kb. exists (strconv.FormatBool b).
  unfold AsValue. simpl literal. rewrite Ks, Kb.
  destruct b; split; reflexivity.
Qed.

End AsValueFacts.

(** ** Detail levels *)

(** X18. The detail level of a field lies between [0] and [9].  Level [1]
    selects every field; among the other levels, a field selected at one
    level is selected at every higher one. *)
Theorem Detail_levels (h : GoValue) (f : Field) (fields : list Field)
        (level level' : Z) :
  0 <= Detail h f <= 9
  /\ ListOptions_Fields h fields 1 = fields
  /\ (level <> 1 -> level <= level' ->
      MatchDetail h f level = true -> MatchDetail h f level' = true).
Proof.
  split; [|split].
  - unfold Detail.
    destruct (find _ (seq 0 10)) as [n|] eqn:E.
    + apply find_some in E. destruct E as [I _].
      apply in_seq in I. lia.
    + destruct (Pk f || Key f || Virtual f), (Encoded h f); simpl; lia.
  - unfold ListOptions_Fields, MatchDetail. simpl.
    induction fields as [|g gs IH]; simpl; [reflexivity | now rewrite IH].
  - unfold MatchDetail. intros N L.
    destruct (level =? 1) eqn:E1; [apply Z.eqb_eq in E1; contradiction|].
    destruct (level' =? 1); [reflexivity|].
    intro M. apply Z.leb_le in M. apply Z.leb_le. lia.
Qed.

(** ** Unique groups *)

Lemma unique_groups_pairs (fields : list Field) :
  unique_groups fields
  = fold_left (fun m p => map_append m (fst p) (snd p)) (group_pairs fields) [].
Proof.
  unfold unique_groups, group_pairs. generalize (@nil (string * list string)).
  induction fields as [|f fs IH]; intro m; simpl; [reflexivity|].
  rewrite fold_left_app, IH. f_equal.
  generalize m. induction (Unique f) as [|g gs IHg]; intro m0; simpl;
    [reflexivity | apply IHg].
Qed.

Lemma lookup_map_append (m : GoMap) (g n g' : string) :
  lookup (map_append m g n) g'
  = if String.eqb g g' then (lookup m g ++ [n])%list else lookup m g'.
Proof.
  unfold lookup. induction m as [|[k l] m IH]; simpl.
  - destruct (String.eqb g g'); reflexivity.
  - destruct (String.eqb k g) eqn:Ek; simpl.
    + apply String.eqb_eq in Ek. subst k.
      destruct (String.eqb g g'); reflexivity.
    + destruct (String.eqb k g') eqn:Ek'.
      * apply String.eqb_eq in Ek'. subst k.
        destruct (String.eqb g g') eqn:Eg; [|reflexivity].
        apply String.eqb_eq in Eg. subst g'.
        rewrite String.eqb_refl in Ek. discriminate.
      * exact IH.
Qed.

Lemma keys_map_append (m : GoMap) (g n : string) :
  NoDup (map fst m) ->
  NoDup (map fst (map_append m g n))
  /\ forall g', In g' (map fst (map_append m g n))
                <-> In g' (map fst m) \/ g' = g.
Proof.
  induction m as [|[k l] m IH]; simpl; intro N.
  - split; [constructor; [intros []|constructor]|].
    intro g'. split; [intros [<- | []]; now right | intros [[] | ->]; now left].
  - inversion N as [|x xs NI N']; subst.
    destruct (String.eqb k g) eqn:Ek; simpl.
    + apply String.eqb_eq in Ek. subst k. split; [exact N|].
      intro g'. split; [tauto | intros [H| ->]; [exact H | now left]].
    + destruct (IH N') as [N1 I1]. split.
      * constructor; [|exact N1]. intro I. apply I1 in I.
        destruct I as [I| ->]; [now apply NI|].
        rewrite String.eqb_refl in Ek. discriminate.
      * intro g'. rewrite I1. tauto.
Qed.

Lemma names_of_snoc (g' g n : string) (ps : list (string * string)) :
  names_of g' (ps ++ [(g, n)])
  = (names_of g' ps ++ if String.eqb g g' then [n] else [])%list.
Proof.
  unfold names_of. rewrite filter_app, map_app. simpl.
  destruct (String.eqb g g'); reflexivity.
Qed.

(** The map built from a list of pairs holds, for every group, the names
    declared for it; its keys are distinct and are the groups declared. *)
Lemma fold_pairs (ps : list (string * string)) :
  let m := fold_left (fun m p => map_append m (fst p) (snd p)) ps [] in
  NoDup (map fst m)
  /\ (forall g, lookup m g = names_of g ps)
  /\ (forall g, In g (map fst m) <-> names_of g ps <> []).
Proof.
  induction ps as [|[g n] ps IH] using rev_ind; simpl.
  - split; [constructor|]. split; [reflexivity|].
    intro g. split; [intros [] | intro N; now elim N].
  - rewrite fold_left_app. simpl.
    destruct IH as [N [L K]].
    destruct (keys_map_append _ g n N) as [N1 I1].
    split; [exact N1|]. split.
    + intro g'. rewrite lookup_map_append, names_of_snoc, L.
      destruct (String.eqb g g') eqn:E; [|now rewrite app_nil_r].
      apply String.eqb_eq in E. now subst g'.
    + intro g'. rewrite I1, names_of_snoc, K.
      destruct (String.eqb g g') eqn:E.
      * apply String.eqb_eq in E. subst g'.
        split; [intros _ A; now apply app_eq_nil in A | now right].
      * rewrite app_nil_r. split; [intros [A| ->]; [exact A|] | now left].
        rewrite String.eqb_refl in E. discriminate.
Qed.

Lemma lookup_In (m : GoMap) (g : string) (names : list string) :
  NoDup (map fst m) -> In (g, names) m -> lookup m g = names.
Proof.
  unfold lookup. induction m as [|[k l] m IH]; simpl; intros N I;
    [destruct I|].
  destruct I as [E|I].
  - injection E as -> ->. now rewrite String.eqb_refl.
  - inversion N as [|x xs NI N']; subst.
    destruct (String.eqb k g) eqn:Ek; [|now apply IH].
    apply String.eqb_eq in Ek. subst k. exfalso. apply NI.
    apply in_map_iff. now exists (g, names).
Qed.

(** X19. The map of unique groups that [Constraints] builds has one entry
    for each group some field declares, and that entry lists the fields that
    declare the group, in declaration order: each UNIQUE clause names
    exactly the fields of its group. *)
Theorem unique_groups_entries (fields : list Field) :
  NoDup (map fst (unique_groups fields))
  /\ forall g names,
      In (g, names) (unique_groups fields)
      <-> names <> [] /\ names = names_of g (group_pairs fields).
Proof.
  rewrite unique_groups_pairs.
  destruct (fold_pairs (group_pairs fields)) as [N [L K]].
  split; [exact N|]. intros g names. split.
  - intro I. pose proof (lookup_In _ g names N I) as E.
    rewrite L in E. split; [|now symmetry].
    rewrite <- E. apply K. apply in_map_iff. now exists (g, names).
  - intros [NE ->]. apply K in NE. apply in_map_iff in NE.
    destruct NE as [[k l] [Ek I]]. simpl in Ek. subst k.
    pose proof (lookup_In _ g l N I) as E. rewrite L in E. now subst l.
Qed.

(** ** The client: transactions, writes, open and close *)

Section MoreClientFacts.

Context {lib : GoLib}.
Variable World : Type.
Variable sql_Tx_Commit : Addr -> World -> World * option error.
Variable sql_Tx_Rollback : Addr -> World -> World * option error.
Variable sql_DB_Begin : Addr -> World -> World * result Addr.
Variable driver : Handle -> DBTX World.
Variable Model_SetPk : Model -> Model.
Variable Label : Model.
Variable os_Remove : string -> World -> World.
Variable sql_Open : string -> World -> World * result Addr.
Variable sql_DB_Exec : Addr -> string -> World -> World * option error.
Variable sql_DB_Close : Addr -> World -> World * option error.

Lemma client_eta (r : Client) (a b : bool) (t : option Addr) :
  Mutex r = a -> mutex r = b -> tx r = t ->
  mkClient a b (path r) (models r) (db r) t = r.
Proof. destruct r; simpl; intros; subst; reflexivity. Qed.

(** X20. A transaction that is begun on an idle client and then committed
    or rolled back with the token [Begin] returned leaves the client as it
    was before [Begin], whatever the database answers to the commit or the
    rollback. *)
Theorem Begin_then_complete (r r1 : Client) (w w1 : World) (t : Tx) :
  tx r = None ->
  Begin sql_DB_Begin r w = Done (r1, w1, Ok t) ->
  commit sql_Tx_Commit r1 t w1
  = Done (r, fst (sql_Tx_Commit (match ref t with Some p => p | None => O end) w1),
          snd (sql_Tx_Commit (match ref t with Some p => p | None => O end) w1))
  /\ rollback sql_Tx_Rollback r1 t w1
     = Done (r, fst (sql_Tx_Rollback (match ref t with Some p => p | None => O end) w1),
             snd (sql_Tx_Rollback (match ref t with Some p => p | None => O end) w1)).
Proof.
  intros T0. unfold Begin.
  destruct (Mutex r) eqn:M; [discriminate|]. simpl.
  destruct (mutex r) eqn:M'; [discriminate|]. simpl.
  destruct (db r) as [d|] eqn:D; [|discriminate].
  destruct (sql_DB_Begin d w) as [w2 [p|e]]; intro E; inversion E; subst.
  assert (R : mkClient false false (path r) (models r) (db r) None = r)
    by now apply client_eta.
  unfold commit, rollback. simpl. rewrite Nat.eqb_refl. simpl.
  destruct (sql_Tx_Commit p w1) as [wc ec].
  destruct (sql_Tx_Rollback p w1) as [wr er].
  clear E R. destruct r as [a b c0 d0 e0 f0]. simpl in *. subst.
  now split.
Qed.

(** X21. A token completes a transaction at most once: after a commit or
    a rollback has returned, a commit or a rollback with the same token
    returns [TxInvalidError] and changes nothing. *)
Theorem token_is_spent (r r' : Client) (t : Tx) (w w' : World)
        (e : option error) :
  commit sql_Tx_Commit r t w = Done (r', w', e)
  \/ rollback sql_Tx_Rollback r t w = Done (r', w', e) ->
  forall w2,
    commit sql_Tx_Commit r' t w2 = Done (r', w2, Some TxInvalidError)
    /\ rollback sql_Tx_Rollback r' t w2 = Done (r', w2, Some TxInvalidError).
Proof.
  assert (G : forall finish,
             (if Mutex r then Blocks
              else
                match tx (set_Mutex r true) with
                | None => Done (set_Mutex (set_Mutex r true) false, w,
                                Some TxInvalidError)
                | Some p =>
                    if negb (same_addr (tx (set_Mutex r true)) (ref t)) then
                      Done (set_Mutex (set_Mutex r true) false, w,
                            Some TxInvalidError)
                    else
                      let '(w, err) := finish p w in
                      if mutex (set_Mutex r true) then
                        Done (set_Mutex
                                (set_tx (set_mutex (set_Mutex r true) false)
                                        None) false, w, err)
                      else Fatal "sync: unlock of unlocked mutex"
                end) = Done (r', w', e) ->
             Mutex r' = false
             /\ (tx r' = None \/ same_addr (tx r') (ref t) = false)).
  { intro finish. destruct (Mutex r) eqn:M; [discriminate|]. simpl.
    destruct (tx r) as [p|] eqn:T.
    - destruct (same_addr (Some p) (ref t)) eqn:S; simpl.
      + destruct (finish p w) as [w1 e1].
        destruct (mutex r); [|discriminate].
        intro E. inversion E; subst. simpl. auto.
      + intro E. inversion E; subst. simpl. rewrite T. auto.
    - intro E. inversion E; subst. simpl. rewrite T. auto. }
  intros H w2.
  assert (F : Mutex r' = false
              /\ (tx r' = None \/ same_addr (tx r') (ref t) = false))
    by (destruct H as [H|H]; [apply (G sql_Tx_Commit) | apply (G sql_Tx_Rollback)];
        exact H).
  destruct F as [M T]. unfold commit, rollback. rewrite M. simpl.
  rewrite (unlocked_client r' M).
  destruct T as [T|T].
  - rewrite T. now split.
  - destruct (tx r') as [p|]; [|now split]. rewrite T. now split.
Qed.

(** X22. When the database refuses to begin, [Begin] returns the error
    with the writer lock still held and no transaction in flight.  From
    then on [Begin] and every write wait for that lock, and no commit or
    rollback releases it: each returns [TxInvalidError] and leaves the lock
    held. *)
Theorem failed_Begin_keeps_writer_lock (r r1 : Client) (w w1 : World)
        (e : error) :
  tx r = None ->
  Begin sql_DB_Begin r w = Done (r1, w1, Err e) ->
  mutex r1 = true /\ tx r1 = None
  /\ forall (m : Model) (t : Tx) (w2 : World),
      Begin sql_DB_Begin r1 w2 = Blocks
      /\ Client_Insert driver Model_SetPk r1 m w2 = Blocks
      /\ Client_Update driver Model_SetPk r1 m w2 = Blocks
      /\ Client_Delete driver Model_SetPk r1 m w2 = Blocks
      /\ commit sql_Tx_Commit r1 t w2 = Done (r1, w2, Some TxInvalidError)
      /\ rollback sql_Tx_Rollback r1 t w2 = Done (r1, w2, Some TxInvalidError).
Proof.
  intros T0. unfold Begin.
  destruct (Mutex r) eqn:M; [discriminate|]. simpl.
  destruct (mutex r) eqn:M'; [discriminate|]. simpl.
  destruct (db r) as [d|] eqn:D; [|discriminate].
  destruct (sql_DB_Begin d w) as [w2 [p|e2]]; intro E; inversion E; subst.
  simpl. split; [reflexivity|]. split; [exact T0|].
  intros m t w3.
  unfold commit, rollback, Client_Insert, Client_Update, Client_Delete.
  simpl. rewrite T0. repeat split; reflexivity.
Qed.

(** X23. A write that returns leaves the client as it found it, both
    locks included.  Inside a transaction it runs on the transaction and
    does not wait for the writer lock, which [Begin] holds; outside it runs
    on the database handle. *)
Theorem writes_keep_client (r : Client) (m : Model) (w : World) :
  Mutex r = false ->
  (forall p, tx r = Some p ->
     Client_Insert driver Model_SetPk r m w
     = (let '(w', m', err) :=
          Insert (mkTable (driver (OnTx p))) (Model_SetPk m) w in
        Done (r, w', m', err))
     /\ Client_Update driver Model_SetPk r m w
        = (let '(w', m', err) :=
             Update (mkTable (driver (OnTx p))) (Model_SetPk m) w in
           Done (r, w', m', err))
     /\ Client_Delete driver Model_SetPk r m w
        = (let '(w', m', err) :=
             Delete (mkTable (driver (OnTx p))) (Model_SetPk m) w in
           Done (r, w', m', err)))
  /\ (tx r = None -> mutex r = false ->
      Client_Insert driver Model_SetPk r m w
      = (let '(w', m', err) :=
           Insert (mkTable (driver (OnDB (db r)))) (Model_SetPk m) w in
         Done (r, w', m', err))
      /\ Client_Update driver Model_SetPk r m w
         = (let '(w', m', err) :=
              Update (mkTable (driver (OnDB (db r)))) (Model_SetPk m) w in
            Done (r, w', m', err))
      /\ Client_Delete driver Model_SetPk r m w
         = (let '(w', m', err) :=
              Delete (mkTable (driver (OnDB (db r)))) (Model_SetPk m) w in
            Done (r, w', m', err))).
Proof.
  intro M. unfold Client_Insert, Client_Update, Client_Delete.
  destruct r as [a b c0 d0 e0 f0]. cbn [Mutex mutex tx db path models] in *.
  subst a. cbn [set_Mutex set_mutex Mutex mutex tx db path models].
  split.
  - intros p ->. repeat split.
  - intros -> ->. repeat split.
Qed.

(** X24. [Close] on a client that is not open does nothing and returns no
    error, with or without [purge]; so a second [Close] after one that
    succeeded changes nothing.  A [Close] that fails leaves the client
    open and removes no file. *)
Theorem Close_twice (r r' : Client) (purge purge2 : bool) (w w' w2 : World)
        (e : option error) :
  Close os_Remove sql_DB_Close r purge w = (r', w', e) ->
  match e with
  | None => Close os_Remove sql_DB_Close r' purge2 w2 = (r', w2, None)
  | Some _ => r' = r /\ exists d, db r = Some d /\ w' = fst (sql_DB_Close d w)
  end.
Proof.
  unfold Close. destruct (db r) as [d|] eqn:D.
  - destruct (sql_DB_Close d w) as [w1 [e1|]] eqn:C; intro E; inversion E;
      subst.
    + split; [reflexivity|]. exists d. rewrite C. now split.
    + reflexivity.
  - intro E. inversion E; subst. simpl. rewrite D. reflexivity.
Qed.

(** X25. An [Open] that returns has registered the model [Label] once
    more, also when it failed; it sets the database handle only when every
    statement was accepted, and touches neither lock nor the transaction. *)
Theorem Open_outcome (range : MapOrder) (r r' : Client) (purge : bool)
        (w w' : World) (e : option error) :
  Open Label os_Remove sql_Open sql_DB_Exec sql_DB_Close range r purge w
  = Done (r', w', e) ->
  models r' = (models r ++ [Label])%list
  /\ Mutex r' = Mutex r /\ mutex r' = mutex r /\ tx r' = tx r
  /\ path r' = path r
  /\ match e with
     | None => exists d, db r' = Some d
     | Some _ => db r' = db r
     end.
Proof.
  unfold Open.
  destruct (sql_Open (path r) _) as [w1 [d|e1]]; [|discriminate].
  simpl models.
  destruct (all_DDL range (models r ++ [Label])) as [ddl|e2]; [|discriminate].
  destruct (exec_all sql_DB_Exec d (Pragma :: ddl) w1) as [w2 [e3|]];
    intro E; inversion E; subst; simpl; repeat split; eauto.
Qed.

End MoreClientFacts.

(** ** Witnesses of the further properties *)

Lemma unflagged_a_thing :
  Forall (fun f => isParam f = false) (fields_of a_thing).
Proof. repeat constructor. Qed.

Lemma insert_binds_real_fields_witness :
  Forall (fun f => isParam f = false) (fields_of a_thing)
  /\ snd (@Params noJSON (record a_thing)
            (fst (insertSQL "Thing" (fields_of a_thing))))
     = [Named "ID" (AString "k"); Named "Name" (AString "a");
        Named "Kind" (AString "b"); Named "Count" (AInt64 1);
        Named "Data" (AString "x")].
Proof.
  split; [exact unflagged_a_thing|].
  rewrite (proj2 (@insert_binds_real_fields noJSON (record a_thing) "Thing"
                    (fields_of a_thing) unflagged_a_thing)).
  reflexivity.
Defined.

Lemma update_binds_mutable_and_pk_witness :
  Forall (fun f => isParam f = false) (fields_of a_thing)
  /\ PkField (fields_of a_thing) = Some (mkField [0%nat] "pk" "ID" "" 0 false)
  /\ Permutation
       (map Arg_Name
            (snd (@Params noJSON (record a_thing)
                    (fst (updateSQL "Thing" (fields_of a_thing))))))
       ["Data"; "ID"].
Proof.
  split; [exact unflagged_a_thing|]. split; [reflexivity|].
  exact (@update_binds_mutable_and_pk noJSON (record a_thing) "Thing"
           (fields_of a_thing) (mkField [0%nat] "pk" "ID" "" 0 false)
           unflagged_a_thing eq_refl).
Defined.

Lemma delete_get_bind_pk_witness :
  Forall (fun f => isParam f = false) (fields_of a_thing)
  /\ PkField (fields_of a_thing) = Some (mkField [0%nat] "pk" "ID" "" 0 false)
  /\ snd (@Params noJSON (record a_thing)
            (fst (deleteSQL "Thing" (fields_of a_thing))))
     = [Named "ID" (AString "k")].
Proof.
  split; [exact unflagged_a_thing|]. split; [reflexivity|].
  exact (proj1 (@delete_get_bind_pk noJSON (record a_thing) "Thing"
                  (fields_of a_thing) (mkField [0%nat] "pk" "ID" "" 0 false)
                  unflagged_a_thing eq_refl)).
Defined.

Lemma Delete_is_one_Exec_witness :
  Fields a_thing = Ok (fields_of a_thing)
  /\ PkField (fields_of a_thing) = Some (mkField [0%nat] "pk" "ID" "" 0 false)
  /\ exists v,
      @Delete noJSON nat no_rows a_thing O
      = (fst (Exec (DB no_rows) O (DeleteSQL "Thing" "ID" ":ID")
                   [Named "ID" v]),
         a_thing, None).
Proof.
  split; [reflexivity|]. split; [reflexivity|].
  destruct (@Delete_is_one_Exec noJSON a_thing (fields_of a_thing)
              (mkField [0%nat] "pk" "ID" "" 0 false) eq_refl eq_refl)
    as [v E].
  exists v. rewrite (E nat no_rows O). reflexivity.
Defined.

Lemma AsValue_panics_only_witness :
  AsValue (single (VString "s")) (staged 0 "") (OValue (VInt TInt 5))
  = Panics "strconv: illegal AppendInt/FormatInt base"
  /\ FieldKind (single (VString "s")) (staged 0 "") = reflect.String.
Proof.
  split; [reflexivity|].
  exact (proj1 (AsValue_panics_only (single (VString "s"))
                  (staged 0 "") (OValue (VInt TInt 5)) _ eq_refl)).
Defined.

Lemma AsValue_errors_witness :
  literal (OValue (VSlice None)) = inr PredicateValueErr
  /\ AsValue (single (VString "s")) (staged 0 "") (OValue (VSlice None))
     = Returns (ANil, Some (Wrapped PredicateValueErr))
  /\ AsValue (single (VSlice None)) (staged 0 "") (OValue (VString "x"))
     = Returns (ANil, Some (Wrapped FieldTypeErr)).
Proof.
  split; [reflexivity|]. split.
  - exact (proj1 (proj2 (AsValue_errors (single (VString "s"))
                           (staged 0 "") (OValue (VSlice None)))) eq_refl).
  - exact (proj2 (proj2 (AsValue_errors (single (VSlice None))
                           (staged 0 "") (OValue (VString "x"))))
                 (Some (VString "x")) eq_refl).
Defined.

Lemma AsValue_bool_text_round_trip_witness :
  FieldKind (single (VString "")) (staged 0 "") = reflect.String
  /\ FieldKind (single (VBool false)) (staged 0 "") = reflect.Bool
  /\ exists s,
      AsValue (single (VString "")) (staged 0 "") (OValue (VBool true))
      = Returns (AString s, None)
      /\ AsValue (single (VBool false)) (staged 0 "")
           (OValue (VString s))
         = Returns (ABool true, None).
Proof.
  split; [reflexivity|]. split; [reflexivity|].
  exact (AsValue_bool_text_round_trip (single (VString ""))
           (single (VBool false)) (staged 0 "") (staged 0 "") true
           eq_refl eq_refl).
Defined.

Lemma Detail_levels_witness :
  Detail (single (VSlice None)) (tagged "key") = 3
  /\ Detail (single (VSlice None)) (tagged "key, d0") = 0
  /\ MatchDetail (single (VString "")) (tagged "") 2 = true
  /\ MatchDetail (single (VString "")) (tagged "") 3 = true.
Proof.
  split; [reflexivity|]. split; [reflexivity|]. split; [reflexivity|].
  apply (proj2 (proj2 (Detail_levels (single (VString "")) (tagged "") [] 2 3)));
    [discriminate | lia | reflexivity].
Defined.

Lemma unique_groups_entries_witness :
  In ("g1", ["A"; "C"]) (unique_groups (fields_of a_pair))
  /\ names_of "g1" (group_pairs (fields_of a_pair)) = ["A"; "C"].
Proof.
  split; [|reflexivity].
  apply (proj2 (unique_groups_entries (fields_of a_pair))).
  split; [discriminate | reflexivity].
Defined.

Lemma Begin_then_complete_witness :
  tx idle_client = None
  /\ Begin begins idle_client O
     = Done (mkClient false true "/tmp/db" [] (Some 1%nat) (Some 7%nat),
             1%nat, Ok (mkTx (Some 7%nat)))
  /\ commit failing_commit
            (mkClient false true "/tmp/db" [] (Some 1%nat) (Some 7%nat))
            (mkTx (Some 7%nat)) 1%nat
     = Done (idle_client, 2%nat, Some (ForeignError "disk I/O error")).
Proof.
  split; [reflexivity|]. split; [reflexivity|].
  exact (proj1 (@Begin_then_complete nat failing_commit completes begins
                  idle_client _ O 1%nat (mkTx (Some 7%nat)) eq_refl eq_refl)).
Defined.

Lemma token_is_spent_witness :
  commit completes busy_client (mkTx (Some 7%nat)) O
  = Done (mkClient false false "/tmp/db" [] (Some 1%nat) None, 1%nat, None)
  /\ commit completes (mkClient false false "/tmp/db" [] (Some 1%nat) None)
            (mkTx (Some 7%nat)) 1%nat
     = Done (mkClient false false "/tmp/db" [] (Some 1%nat) None, 1%nat,
             Some TxInvalidError).
Proof.
  split; [reflexivity|].
  exact (proj1 (@token_is_spent nat completes completes busy_client _
                  (mkTx (Some 7%nat)) O 1%nat None (or_introl eq_refl) 1%nat)).
Defined.

Lemma failed_Begin_keeps_writer_lock_witness :
  tx idle_client = None
  /\ Begin refuses idle_client O
     = Done (mkClient false true "/tmp/db" [] (Some 1%nat) None, 1%nat,
             Err (ForeignError "database is locked"))
  /\ Begin begins (mkClient false true "/tmp/db" [] (Some 1%nat) None) 1%nat
     = Blocks
  /\ @Client_Insert noJSON nat any_handle same_model
       (mkClient false true "/tmp/db" [] (Some 1%nat) None) a_thing 1%nat
     = Blocks.
Proof.
  split; [reflexivity|]. split; [reflexivity|].
  pose proof (proj2 (proj2 (@failed_Begin_keeps_writer_lock noJSON nat
                              completes completes refuses any_handle same_model
                              idle_client _ O 1%nat _ eq_refl eq_refl))
                    a_thing (mkTx None) 1%nat) as [_ [I _]].
  split; [reflexivity | exact I].
Defined.

Lemma writes_keep_client_witness :
  Mutex busy_client = false
  /\ tx busy_client = Some 7%nat
  /\ @Client_Insert noJSON nat any_handle same_model busy_client new_thing O
     = Done (busy_client, 1%nat,
             Pointer "Thing"
               (Some (thing "0474aee45985f5ae829f53849df476200e876990"
                            "a" "k" 1 "x")),
             None).
Proof.
  split; [reflexivity|]. split; [reflexivity|].
  rewrite (proj1 (proj1 (@writes_keep_client noJSON nat any_handle same_model
                           busy_client new_thing O eq_refl)
                        7%nat eq_refl)).
  vm_compute. reflexivity.
Defined.

Lemma Close_twice_witness :
  Close removes completes idle_client true O
  = (mkClient false false "/tmp/db" [] None None, 1%nat, None)
  /\ Close removes completes (mkClient false false "/tmp/db" [] None None)
           true 5%nat
     = (mkClient false false "/tmp/db" [] None None, 5%nat, None).
Proof.
  split; [reflexivity|].
  exact (@Close_twice nat removes completes idle_client _ true true O 1%nat
           5%nat None eq_refl).
Defined.

Lemma Open_outcome_witness :
  Open a_thing removes opens executes completes in_order idle_client false O
  = Done (mkClient false false "/tmp/db" [a_thing] (Some 1%nat) None,
          4%nat, None)
  /\ models (mkClient false false "/tmp/db" [a_thing] (Some 1%nat) None)
     = (models idle_client ++ [a_thing])%list.
Proof.
  assert (E : Open a_thing removes opens executes completes in_order
                   idle_client false O
              = Done (mkClient false false "/tmp/db" [a_thing] (Some 1%nat) None,
                      4%nat, None))
    by (vm_compute; reflexivity).
  split; [exact E|].
  exact (proj1 (@Open_outcome nat a_thing removes opens executes completes
                  in_order idle_client _ false O 4%nat None E)).
Defined.

(** ** More on the operations *)

Section MoreOperations.

Context {lib : GoLib}.

(** X26. The error of [SetPk] in closed form: none without a pk field and
    none for a string pk, set or not; [GenPkTypeErr] for a pk of any other
    kind, an integer pk that the caller has set among them. *)
Theorem SetPk_error (h : GoValue) (fs : list Field) :
  snd (SetPk h fs)
  = match PkField fs with
    | None => None
    | Some pk =>
        if string_kind (FieldKind h pk) then None
        else Some (Wrapped GenPkTypeErr)
    end.
Proof.
  destruct (PkField fs) as [pk|] eqn:P;
    [|unfold SetPk; rewrite P; reflexivity].
  destruct (string_kind (FieldKind h pk)) eqn:K.
  - assert (C : exists s, cell h pk = Some (VString s)).
    { unfold FieldKind in K. destruct (cell h pk) as [[b|t n|s|ms|el|en|]|];
        try discriminate; eauto. destruct t; discriminate. }
    destruct C as [s C].
    destruct (String.eqb s "") eqn:E.
    + apply String.eqb_eq in E. subst s.
      exact (proj2 (SetPk_digest h fs pk P C)).
    + assert (K1 : FieldKind h pk = reflect.String)
        by (unfold FieldKind; now rewrite C).
      assert (S0 : f_string (fst (Pull h pk)) = s)
        by (unfold Pull; now rewrite C).
      unfold SetPk. rewrite P, K1, S0, E. reflexivity.
  - unfold SetPk. rewrite P. destruct (FieldKind h pk); try reflexivity.
    discriminate.
Qed.

(** X27. A [Get] whose row cannot be scanned (no row among the causes)
    returns the error of [Scan], wrapped, and leaves the model as [SetPk]
    left it: no field is overwritten. *)
Theorem Get_scan_error (Conn : Type) (t : Table Conn) (m : Model) (c c' : Conn)
        (fs : list Field) (row : Row) (e : error) :
  Fields m = Ok fs ->
  PkField fs <> None ->
  (forall stmt params, QueryRow (DB t) c stmt params = (c', row)) ->
  (forall dests, snd (row dests) = Some e) ->
  Get t m c = (c', after_SetPk m, Some (Wrap e)).
Proof.
  intros F P Q S.
  assert (A : after_SetPk m = with_record m (fst (fst (SetPk (record m) fs))))
    by (unfold after_SetPk, fields_of; now rewrite F).
  unfold Get. rewrite F.
  pose proof (SetPk_keeps_pk (record m) fs P) as P1.
  destruct (SetPk (record m) fs) as [[h fs1] e1]. simpl in A, P1.
  unfold getSQL. destruct (PkField fs1) as [pk1|]; [|congruence].
  destruct (Params h _) as [fs2 params]. rewrite Q.
  unfold scan.
  match goal with |- context [row ?d] =>
    pose proof (S d) as Sd; destruct (row d) as [cells err] end.
  simpl in Sd. subst err. simpl. rewrite A.
  f_equal; [f_equal; destruct m as [n [x|]|n v]; reflexivity|].
  f_equal. destruct e; reflexivity.
Qed.

Variable World : Type.
Variable Label : Model.
Variable os_Remove : string -> World -> World.
Variable sql_Open : string -> World -> World * result Addr.
Variable sql_DB_Exec : Addr -> string -> World -> World * option error.
Variable sql_DB_Close : Addr -> World -> World * option error.

Lemma all_DDL_error (range : MapOrder) (ms : list Model) (m : Model) (e : error) :
  In m ms -> DDL range m = Err e -> exists e', all_DDL range ms = Err e'.
Proof.
  induction ms as [|x ms IH]; intros I E; [destruct I|]. simpl.
  destruct I as [->|I].
  - rewrite E. eauto.
  - destruct (DDL range x); [|eauto].
    destruct (IH I E) as [e' ->]. eauto.
Qed.

(** X28. [Open] panics when the DDL of a registered model, or of [Label],
    cannot be derived (a model without pk, a model that is not a pointer to
    a struct): no statement is executed and nothing is returned. *)
Theorem Open_panics_on_invalid_model (range : MapOrder) (r : Client)
        (purge : bool) (w : World) (m : Model) (e : error) :
  In m (models r ++ [Label]) ->
  DDL range m = Err e ->
  Open Label os_Remove sql_Open sql_DB_Exec sql_DB_Close range r purge w
  = Fatal "panic".
Proof.
  intros I E. unfold Open.
  destruct (sql_Open (path r) _) as [w1 [d|e1]]; [|reflexivity].
  simpl models.
  destruct (all_DDL_error range _ m e I E) as [e' ->]. reflexivity.
Qed.

End MoreOperations.

Lemma Get_scan_error_witness :
  Fields a_thing = Ok (fields_of a_thing)
  /\ PkField (fields_of a_thing) <> None
  /\ @Get noJSON nat no_rows a_thing O
     = (1%nat, a_thing, Some (Wrapped NotFound)).
Proof.
  assert (P : PkField (fields_of a_thing) <> None)
    by (vm_compute; discriminate).
  split; [reflexivity|]. split; [exact P|].
  exact (@Get_scan_error noJSON nat no_rows a_thing O 1%nat
           (fields_of a_thing) (fun dests => (dests, Some NotFound)) NotFound
           eq_refl P (fun _ _ => eq_refl) (fun _ => eq_refl)).
Defined.

Lemma Open_panics_on_invalid_model_witness :
  In keyless (models idle_client ++ [keyless])
  /\ DDL in_order keyless = Err (Wrapped MustHavePkErr)
  /\ Open keyless removes opens executes completes in_order idle_client false O
     = Fatal "panic".
Proof.
  assert (I : In keyless (models idle_client ++ [keyless]))
    by (simpl; now left).
  split; [exact I|]. split; [reflexivity|].
  exact (@Open_panics_on_invalid_model nat keyless removes opens executes
           completes in_order idle_client false O keyless _ I eq_refl).
Defined.
